(** * LaundryTracker: the order ledger, its aggregation, deletion, export
      and the edit/recompute workflow

    A shallow embedding of [src/types.ts], of the ledger logic of
    [src/App.tsx] and of the editing logic of the results view
    ([components/ResultsView]), followed by the properties the
    specification states about them.

    JavaScript values are modelled as follows.
    - A [number] is an IEEE 754 binary64 value, as [spec_float] with
      precision 53 and maximal exponent 1024; arithmetic is the correctly
      rounded one of [SpecFloat].
    - A string is a [string] whose characters are read as code units below
      256 (the Latin-1 range of UTF-16).
    - A plain object used as a dictionary is the list of its own properties
      in creation order, looked up through [Object.prototype].
    - A thrown exception is the [Throw] case of [except].
    - What [JSON.parse] gives for the history is an array of records or
      another JSON value, a value of [json]. *)

From Stdlib Require Import ZArith Ascii String DecimalString.
From Stdlib Require Import Floats.SpecFloat.
From stdpp Require Import base list sorting gmap strings.

Local Open Scope Z_scope.

(** ** Exceptions *)

Inductive exn : Type :=
  | TypeError
  | SyntaxError
  | SecurityError.

Inductive except (A : Type) : Type :=
  | Return (a : A)
  | Throw (e : exn).
Arguments Return {A} a.
Arguments Throw {A} e.

Global Instance except_ret : MRet except := fun A a => Return a.

Global Instance except_bind : MBind except := fun A B k m =>
  match m with
  | Return a => k a
  | Throw e => Throw e
  end.

(** ** Numbers *)

Module JS.

Definition number : Type := spec_float.

Definition prec : Z := 53.
Definition emax : Z := 1024.

Definition zero : number := S754_zero false.
Definition NaN : number := S754_nan.
Definition Infinity : number := S754_infinity false.

(** [x + y] on numbers. *)
Definition add (x y : number) : number := SFadd prec emax x y.

(** The number nearest to the integer [z] ([-0] is never produced). *)
Definition of_Z (z : Z) : number := binary_normalize prec emax z 0 false.

Definition isNaN (x : number) : bool :=
  match x with
  | S754_nan => true
  | _ => false
  end.

(** [ToBoolean] on numbers: [+0], [-0] and [NaN] are falsy. *)
Definition truthy (x : number) : bool :=
  match x with
  | S754_zero _ | S754_nan => false
  | _ => true
  end.

(** [x || 0] *)
Definition or_zero (x : number) : number :=
  if truthy x then x else zero.

(** ** Characters and strings *)

Definition code (c : ascii) : Z := Z.of_N (N_of_ascii c).

Definition dquote : ascii := ascii_of_nat 34.
Definition newline : ascii := ascii_of_nat 10.

(** White space and line terminators below 256: TAB, LF, VT, FF, CR, SP,
    NBSP. *)
Definition is_white (c : ascii) : bool :=
  let n := code c in
  ((9 <=? n) && (n <=? 13)) || (n =? 32) || (n =? 160).

Definition is_digit (c : ascii) : bool :=
  let n := code c in (48 <=? n) && (n <=? 57).

Definition digit_val (c : ascii) : Z := code c - 48.

Fixpoint trimStart (s : string) : string :=
  match s with
  | String c s' => if is_white c then trimStart s' else s
  | EmptyString => EmptyString
  end.

Definition trimEnd (s : string) : string :=
  String.rev (trimStart (String.rev s)).

(** [s.trim()] *)
Definition trim (s : string) : string := trimEnd (trimStart s).

Definition lower_char (c : ascii) : ascii :=
  let n := code c in
  if ((65 <=? n) && (n <=? 90))
     || ((192 <=? n) && (n <=? 222) && negb (n =? 215))
  then ascii_of_N (Z.to_N (n + 32))
  else c.

(** [s.toLowerCase()] *)
Fixpoint toLowerCase (s : string) : string :=
  match s with
  | String c s' => String (lower_char c) (toLowerCase s')
  | EmptyString => EmptyString
  end.

(** [s.replace(/c/g, by)] for a single character [c]. *)
Fixpoint replace_all (c : ascii) (by_ : string) (s : string) : string :=
  match s with
  | String d s' =>
      if Ascii.eqb d c then by_ +:+ replace_all c by_ s'
      else String d (replace_all c by_ s')
  | EmptyString => EmptyString
  end.

(** [parts.join(sep)] *)
Fixpoint join (sep : string) (parts : list string) : string :=
  match parts with
  | [] => ""
  | [p] => p
  | p :: ps => p +:+ sep +:+ join sep ps
  end.

(** [s.padStart(2, '0')] *)
Definition padStart2 (s : string) : string :=
  match s with
  | String c EmptyString => String "0"%char s
  | EmptyString => "00"
  | _ => s
  end.

(** Decimal rendering of an integer, as [ToString] gives it for integral
    numbers of moderate size. *)
Definition Z_toString (z : Z) : string :=
  NilZero.string_of_int (Z.to_int z).

(** ** Numeric literals in strings *)

(** Reads a maximal run of decimal digits: the value accumulated onto
    [acc], the number of digits read and the rest of the string. *)
Fixpoint scan_digits (s : string) (acc : Z) (n : nat) : Z * nat * string :=
  match s with
  | String c s' =>
      if is_digit c then scan_digits s' (10 * acc + digit_val c) (S n)
      else (acc, n, s)
  | EmptyString => (acc, n, s)
  end.

(** [ExponentPart], when there is a well-formed one: its value and the
    rest; otherwise exponent [0] and the string untouched. *)
Definition scan_exponent (s : string) : Z * string :=
  match s with
  | String c s1 =>
      if Ascii.eqb c "e"%char || Ascii.eqb c "E"%char then
        match s1 with
        | String sg s2 =>
            if Ascii.eqb sg "+"%char then
              let '(v, n, r) := scan_digits s2 0 0%nat in
              if Nat.eqb n 0 then (0, s) else (v, r)
            else if Ascii.eqb sg "-"%char then
              let '(v, n, r) := scan_digits s2 0 0%nat in
              if Nat.eqb n 0 then (0, s) else (- v, r)
            else
              let '(v, n, r) := scan_digits s1 0 0%nat in
              if Nat.eqb n 0 then (0, s) else (v, r)
        | EmptyString => (0, s)
        end
      else (0, s)
  | EmptyString => (0, s)
  end.

(** The mathematical value of a [StrUnsignedDecimalLiteral]: infinite, or
    [m * 10 ^ e]. *)
Inductive literal : Type :=
  | LInfinity
  | LDecimal (m e : Z).

(** The longest prefix that is a [StrUnsignedDecimalLiteral]. *)
Definition scan_unsigned (s : string) : option (literal * string) :=
  if String.prefix "Infinity" s then
    Some (LInfinity, String.substring 8 (String.length s - 8)%nat s)
  else
    let '(ip, n1, r1) := scan_digits s 0 0%nat in
    match r1 with
    | String "."%char r2 =>
        let '(m, n2, r3) := scan_digits r2 ip 0%nat in
        if Nat.eqb n1 0 && Nat.eqb n2 0 then None
        else
          let '(ex, r4) := scan_exponent r3 in
          Some (LDecimal m (ex - Z.of_nat n2), r4)
    | _ =>
        if Nat.eqb n1 0 then None
        else
          let '(ex, r4) := scan_exponent r1 in
          Some (LDecimal ip ex, r4)
    end.

(** The longest prefix that is a [StrDecimalLiteral]: sign, literal and
    rest. *)
Definition scan_decimal (s : string) : option (bool * literal * string) :=
  match s with
  | String "+"%char s' =>
      match scan_unsigned s' with
      | Some (l, r) => Some (false, l, r)
      | None => None
      end
  | String "-"%char s' =>
      match scan_unsigned s' with
      | Some (l, r) => Some (true, l, r)
      | None => None
      end
  | _ =>
      match scan_unsigned s with
      | Some (l, r) => Some (false, l, r)
      | None => None
      end
  end.

(** The number nearest to [± m * 10 ^ e] (ties to even), for [0 <= m]. *)
Definition round_decimal (neg : bool) (m e : Z) : number :=
  match m with
  | Zpos p =>
      if 0 <=? e then
        binary_normalize prec emax (cond_Zopp neg (m * 10 ^ e)) 0 false
      else
        SFdiv prec emax (S754_finite neg p 0)
              (S754_finite false (Z.to_pos (10 ^ (- e))) 0)
  | _ => S754_zero neg
  end.

Definition literal_value (neg : bool) (l : literal) : number :=
  match l with
  | LInfinity => S754_infinity neg
  | LDecimal m e => round_decimal neg m e
  end.

(** [parseFloat(s)] *)
Definition parseFloat (s : string) : number :=
  match scan_decimal (trimStart s) with
  | Some (neg, l, _) => literal_value neg l
  | None => NaN
  end.

(** Value of a digit of a [NonDecimalIntegerLiteral] in the given radix. *)
Definition radix_digit (radix : Z) (c : ascii) : option Z :=
  let n := code c in
  let v :=
    if is_digit c then n - 48
    else if (97 <=? n) && (n <=? 102) then n - 87
    else if (65 <=? n) && (n <=? 70) then n - 55
    else radix in
  if v <? radix then Some v else None.

Fixpoint scan_radix (radix : Z) (s : string) (acc : Z) : option Z :=
  match s with
  | String c s' =>
      match radix_digit radix c with
      | Some d => scan_radix radix s' (radix * acc + d)
      | None => None
      end
  | EmptyString => Some acc
  end.

Definition radix_of_prefix (c : ascii) : option Z :=
  if Ascii.eqb c "x"%char || Ascii.eqb c "X"%char then Some 16
  else if Ascii.eqb c "o"%char || Ascii.eqb c "O"%char then Some 8
  else if Ascii.eqb c "b"%char || Ascii.eqb c "B"%char then Some 2
  else None.

Definition decimal_to_number (t : string) : number :=
  match scan_decimal t with
  | Some (neg, l, EmptyString) => literal_value neg l
  | _ => NaN
  end.

(** [Number(s)] on a string ([StringToNumber]): the whole trimmed string
    has to be a numeric literal, and the empty string is [0]. *)
Definition StringToNumber (s : string) : number :=
  let t := trim s in
  match t with
  | EmptyString => zero
  | String "0"%char (String x r) =>
      match radix_of_prefix x with
      | Some radix =>
          match r with
          | EmptyString => NaN
          | _ =>
              match scan_radix radix r 0 with
              | Some v => of_Z v
              | None => NaN
              end
          end
      | None => decimal_to_number t
      end
  | _ => decimal_to_number t
  end.

(** ** Numbers to strings *)

Global Instance number_eq_dec : EqDecision number.
Proof. solve_decision. Defined.

(** A positive finite number as an exact fraction. *)
Definition fraction (m : positive) (e : Z) : Z * Z :=
  if 0 <=? e then (Zpos m * 2 ^ e, 1) else (Zpos m, 2 ^ (- e)).

(** The [n] with [10 ^ (n - 1) <= num / den < 10 ^ n]. *)
Fixpoint decimal_exponent_below (fuel : nat) (num den : Z) (n : Z) : Z :=
  match fuel with
  | O => n
  | S fuel' =>
      if den <=? num then n
      else decimal_exponent_below fuel' (10 * num) den (n - 1)
  end.

Definition decimal_exponent (num den : Z) : Z :=
  if den <=? num then Z.of_nat (String.length (Z_toString (num / den)))
  else decimal_exponent_below 400 (10 * num) den 0.

(** The candidate with [k] digits for the shortest decimal that reads back
    as [x = num / den]: the digits as an integer, if there is one. *)
Definition shortest_candidate (x : number) (num den n0 k : Z) : option Z :=
  let p := n0 - k in
  let N := num * 10 ^ Z.max (- p) 0 in
  let D := den * 10 ^ Z.max p 0 in
  let lo := N / D in
  let hi := lo + 1 in
  let dlo := N mod D in
  let dhi := D - dlo in
  let ok_lo := bool_decide (round_decimal false lo p = x) in
  let ok_hi := bool_decide (round_decimal false hi p = x) in
  match ok_lo, ok_hi with
  | true, true =>
      if dlo <? dhi then Some lo
      else if dhi <? dlo then Some hi
      else if Z.even lo then Some lo else Some hi
  | true, false => Some lo
  | false, true => Some hi
  | false, false => None
  end.

Fixpoint shortest_digits (fuel : nat) (x : number) (num den n0 k : Z)
  : Z * Z * Z :=
  match fuel with
  | O => (num * 10 ^ Z.max (k - n0) 0 / (den * 10 ^ Z.max (n0 - k) 0), k, n0)
  | S fuel' =>
      match shortest_candidate x num den n0 k with
      | Some s => if s =? 10 ^ k then (1, 1, n0 + 1) else (s, k, n0)
      | None => shortest_digits fuel' x num den n0 (k + 1)
      end
  end.

Fixpoint zeros (n : nat) : string :=
  match n with
  | O => ""
  | S n' => String "0"%char (zeros n')
  end.

(** [Number::toString] on a positive finite number. *)
Definition positive_toString (m : positive) (e : Z) : string :=
  let '(num, den) := fraction m e in
  let n0 := decimal_exponent num den in
  let '(s, k, n) :=
    shortest_digits 17 (S754_finite false m e) num den n0 1 in
  let ds := Z_toString s in
  if (k <=? n) && (n <=? 21) then ds +:+ zeros (Z.to_nat (n - k))
  else if (0 <? n) && (n <=? 21) then
    String.substring 0 (Z.to_nat n) ds +:+ "." +:+
    String.substring (Z.to_nat n) (Z.to_nat (k - n)) ds
  else if (-6 <? n) && (n <=? 0) then
    "0." +:+ zeros (Z.to_nat (- n)) +:+ ds
  else
    let ex := (if 0 <=? n - 1 then "+" else "-") +:+ Z_toString (Z.abs (n - 1)) in
    if k =? 1 then ds +:+ "e" +:+ ex
    else
      String.substring 0 1 ds +:+ "." +:+
      String.substring 1 (Z.to_nat (k - 1)) ds +:+ "e" +:+ ex.

(** [x.toString()] and [String(x)] on a number. *)
Definition Number_toString (x : number) : string :=
  match x with
  | S754_nan => "NaN"
  | S754_zero _ => "0"
  | S754_infinity false => "Infinity"
  | S754_infinity true => "-Infinity"
  | S754_finite false m e => positive_toString m e
  | S754_finite true m e => "-" +:+ positive_toString m e
  end.

Definition digit_char (d : Z) : ascii := ascii_of_N (Z.to_N (48 + d)).

(** [x.toFixed(2)]: the integer [n] nearest to [100 * |x|], the larger one
    on a tie, printed with its last two digits as decimals; numbers of
    magnitude [10 ^ 21] or more, infinities and [NaN] print as [toString]
    does. *)
Definition toFixed2 (x : number) : string :=
  match x with
  | S754_zero _ => "0.00"
  | S754_finite neg m e =>
      let '(num, den) := fraction m e in
      if 10 ^ 21 * den <=? num then Number_toString x
      else
        let n := (200 * num + den) / (2 * den) in
        (if neg then "-" else "") +:+ Z_toString (n / 100) +:+ "." +:+
        String (digit_char (n mod 100 / 10))
               (String (digit_char (n mod 10)) "")
  | _ => Number_toString x
  end.

(** ** Dates *)

Definition msPerDay : Z := 86400000.

(** [TimeClip]: a time value is valid within 8.64e15 ms of the epoch. *)
Definition valid_time (t : Z) : bool := Z.abs t <=? 8640000000000000.

(** Year and month (1 to 12) of a day number in the proleptic Gregorian
    calendar, day 0 being 1 January 1970. *)
Definition civil_of_day (day : Z) : Z * Z :=
  let z := day + 719468 in
  let era := z / 146097 in
  let doe := z - era * 146097 in
  let yoe := (doe - doe / 1460 + doe / 36524 - doe / 146096) / 365 in
  let doy := doe - (365 * yoe + yoe / 4 - yoe / 100) in
  let mp := (5 * doy + 2) / 153 in
  let m := if mp <? 10 then mp + 3 else mp - 9 in
  let y := yoe + era * 400 in
  (if m <=? 2 then y + 1 else y, m).

(** [YearFromTime] and [MonthFromTime] (0 to 11) of a time value. *)
Definition YearFromTime (t : Z) : Z := fst (civil_of_day (t / msPerDay)).
Definition MonthFromTime (t : Z) : Z := snd (civil_of_day (t / msPerDay)) - 1.

(** ** Plain objects used as dictionaries *)

(** The own properties of an object literal, in creation order. *)
Abbreviation obj A := (list (string * A)).

(** The property names every plain object inherits from
    [Object.prototype]; each of them holds a function or an object. *)
Definition prototype_keys : list string :=
  [ "constructor"; "__defineGetter__"; "__defineSetter__"; "hasOwnProperty";
    "__lookupGetter__"; "__lookupSetter__"; "isPrototypeOf";
    "propertyIsEnumerable"; "toString"; "valueOf"; "__proto__";
    "toLocaleString" ].

(** The outcome of reading [o[k]]. *)
Inductive property (A : Type) : Type :=
  | Own (a : A)
  | Inherited
  | Undefined.
Arguments Own {A} a.
Arguments Inherited {A}.
Arguments Undefined {A}.

Fixpoint own {A : Type} (o : obj A) (k : string) : option A :=
  match o with
  | [] => None
  | (k', a) :: o' => if bool_decide (k' = k) then Some a else own o' k
  end.

(** [o[k]] *)
Definition get {A : Type} (o : obj A) (k : string) : property A :=
  match own o k with
  | Some a => Own a
  | None => if bool_decide (k ∈ prototype_keys) then Inherited else Undefined
  end.

(** [o[k] = a] for a name that is not inherited: an existing own property
    keeps its place, a new one goes last. *)
Fixpoint set {A : Type} (o : obj A) (k : string) (a : A) : obj A :=
  match o with
  | [] => [(k, a)]
  | (k', a') :: o' =>
      if bool_decide (k' = k) then (k', a) :: o' else (k', a') :: set o' k a
  end.

(** The array index a property name denotes, if any: a canonical decimal
    numeral below [2 ^ 32 - 1]. *)
Definition array_index (k : string) : option Z :=
  match scan_digits k 0 0%nat with
  | (v, _, EmptyString) =>
      if bool_decide (Z_toString v = k) && (v <? 4294967295) then Some v
      else None
  | _ => None
  end.

Definition index_le {A : Type} (p q : Z * (string * A)) : Prop :=
  fst p ≤ fst q.

Global Instance index_le_dec {A : Type} : RelDecision (@index_le A).
Proof. intros p q. unfold index_le. apply _. Defined.

Definition indexed {A : Type} (p : string * A) : option (Z * (string * A)) :=
  match array_index (fst p) with
  | Some i => Some (i, p)
  | None => None
  end.

(** [Object.entries(o)]: own properties whose names are array indices
    first, in ascending numeric order, then the others in creation
    order. *)
Definition Object_entries {A : Type} (o : obj A) : list (string * A) :=
  map snd (merge_sort index_le (omap indexed o))
  ++ filter (λ p, array_index (fst p) = None) o.

(** [Object.keys(o)] and [Object.values(o)] *)
Definition Object_keys {A : Type} (o : obj A) : list string :=
  map fst (Object_entries o).
Definition Object_values {A : Type} (o : obj A) : list A :=
  map snd (Object_entries o).

(** [keys.sort()] with the default comparison, by code units. *)
Definition sort (keys : list string) : list string :=
  merge_sort String.le keys.

(** ** JSON values *)

(** The values [JSON.parse] gives: [null], booleans, numbers, strings,
    arrays, and objects with their members as own properties. *)
#[local] Unset Elimination Schemes.
Inductive json : Type :=
  | JNull
  | JBoolean (b : bool)
  | JNumber (x : number)
  | JString (s : string)
  | JArray (items : list json)
  | JObject (members : list (string * json)).
#[local] Set Elimination Schemes.

End JS.

Import JS.

(** ** The record model ([types.ts]) *)

(** [laundry_weight_kg : number | string], the string being the marker
    ["DATA_UNCLEAR"] of an extraction that found no number. *)
Inductive weight : Type :=
  | WNumber (n : number)
  | WString (s : string).

Definition DATA_UNCLEAR : weight := WString "DATA_UNCLEAR".

(** [price] is declared a number, but every read of it is guarded
    ([row.price || 0], [record.price?.toFixed(2)]) because a stored record
    may lack it: [None] is the absent property. *)
Record LaundryOrderResult : Type := {
  laundry_service_name : string;
  shopify_order_number : string;
  customer_name : string;
  delivery_address : string;
  laundry_weight_kg : weight;
  price : option number;
  extraction_confidence_score : number;
  timestamp : Z;
  weight_image_src : option string;
  customer_image_src : option string;
}.

Inductive Step : Type := INPUT | PROCESSING | RESULT.

Abbreviation ledger := (list LaundryOrderResult).

(** [Number(w)] on a weight. *)
Definition Number (w : weight) : number :=
  match w with
  | WNumber n => n
  | WString s => StringToNumber s
  end.

(** [w.toString()] on a weight, and a weight as [join] renders it. *)
Definition weight_toString (w : weight) : string :=
  match w with
  | WNumber n => Number_toString n
  | WString s => s
  end.

(** [p || 0] on a price that may be absent. *)
Definition price_or_zero (p : option number) : number :=
  match p with
  | Some x => or_zero x
  | None => zero
  end.

(** ** The results view: editing a draft *)

Module ResultsView.

Section Pricing.

(** [calculatePrice] of [services/geminiService], the pricing function. *)
Variable calculatePrice : number → number.

Record state : Type := {
  isEditingWeight : bool;
  editedWeight : string;
  currentPrice : number;
  isEditingName : bool;
  editedName : string;
  isEditingAddress : bool;
  editedAddress : string;
}.

(** The [useState] initial values. *)
Definition initial (data : LaundryOrderResult) : state := {|
  isEditingWeight := false;
  editedWeight := weight_toString (laundry_weight_kg data);
  currentPrice := price_or_zero (price data);
  isEditingName := false;
  editedName := customer_name data;
  isEditingAddress := false;
  editedAddress := delivery_address data;
|}.

Definition setCurrentPrice (p : number) (st : state) : state := {|
  isEditingWeight := isEditingWeight st;
  editedWeight := editedWeight st;
  currentPrice := p;
  isEditingName := isEditingName st;
  editedName := editedName st;
  isEditingAddress := isEditingAddress st;
  editedAddress := editedAddress st;
|}.

(** The body of the effect that depends on [editedWeight]. *)
Definition recalculate (st : state) : state :=
  let weight := parseFloat (editedWeight st) in
  if negb (isNaN weight) then setCurrentPrice (calculatePrice weight) st
  else setCurrentPrice zero st.

(** The view once mounted: the effect has run on the initial state. *)
Definition mount (data : LaundryOrderResult) : state :=
  recalculate (initial data).

(** What the operator can do before saving or discarding. *)
Inductive event : Type :=
  | SetIsEditingWeight (b : bool)
  | SetEditedWeight (text : string)
  | SetIsEditingName (b : bool)
  | SetEditedName (text : string)
  | SetIsEditingAddress (b : bool)
  | SetEditedAddress (text : string).

(** One event and the effects it triggers: the price effect runs again
    only when [editedWeight] has changed. *)
Definition handle (st : state) (ev : event) : state :=
  match ev with
  | SetIsEditingWeight b => {|
      isEditingWeight := b;
      editedWeight := editedWeight st;
      currentPrice := currentPrice st;
      isEditingName := isEditingName st;
      editedName := editedName st;
      isEditingAddress := isEditingAddress st;
      editedAddress := editedAddress st |}
  | SetEditedWeight text =>
      if bool_decide (text = editedWeight st) then st
      else recalculate {|
        isEditingWeight := isEditingWeight st;
        editedWeight := text;
        currentPrice := currentPrice st;
        isEditingName := isEditingName st;
        editedName := editedName st;
        isEditingAddress := isEditingAddress st;
        editedAddress := editedAddress st |}
  | SetIsEditingName b => {|
      isEditingWeight := isEditingWeight st;
      editedWeight := editedWeight st;
      currentPrice := currentPrice st;
      isEditingName := b;
      editedName := editedName st;
      isEditingAddress := isEditingAddress st;
      editedAddress := editedAddress st |}
  | SetEditedName text => {|
      isEditingWeight := isEditingWeight st;
      editedWeight := editedWeight st;
      currentPrice := currentPrice st;
      isEditingName := isEditingName st;
      editedName := text;
      isEditingAddress := isEditingAddress st;
      editedAddress := editedAddress st |}
  | SetIsEditingAddress b => {|
      isEditingWeight := isEditingWeight st;
      editedWeight := editedWeight st;
      currentPrice := currentPrice st;
      isEditingName := isEditingName st;
      editedName := editedName st;
      isEditingAddress := b;
      editedAddress := editedAddress st |}
  | SetEditedAddress text => {|
      isEditingWeight := isEditingWeight st;
      editedWeight := editedWeight st;
      currentPrice := currentPrice st;
      isEditingName := isEditingName st;
      editedName := editedName st;
      isEditingAddress := isEditingAddress st;
      editedAddress := text |}
  end.

(** The view after a sequence of events on a freshly mounted draft. *)
Definition run (data : LaundryOrderResult) (evs : list event) : state :=
  foldl handle (mount data) evs.

(** [handleSave]: the record handed to [onSave]. *)
Definition handleSave (data : LaundryOrderResult) (st : state)
  : LaundryOrderResult := {|
  laundry_service_name := laundry_service_name data;
  shopify_order_number := shopify_order_number data;
  customer_name := editedName st;
  delivery_address := editedAddress st;
  laundry_weight_kg := WNumber (or_zero (parseFloat (editedWeight st)));
  price := Some (currentPrice st);
  extraction_confidence_score := extraction_confidence_score data;
  timestamp := timestamp data;
  weight_image_src := weight_image_src data;
  customer_image_src := customer_image_src data;
|}.

End Pricing.

End ResultsView.

(** ** The application: ledger store, selection, export, aggregation *)

Module App.

(** *** Loading the ledger *)

(** What the history state holds once it is initialised. The state is
    declared an array of records, but the initialiser returns what
    [JSON.parse] gives without looking at it: [Records] is an array of
    records as [types.ts] declares them, [Foreign] any other JSON value,
    such as [null], an object, or an array with an item that is no such
    record. *)
Inductive held : Type :=
  | Records (history : ledger)
  | Foreign (v : json).

Section Storage.

(** [localStorage.getItem], which may throw where storage is denied, and
    [JSON.parse], which throws on text that is not JSON and gives the
    value of any text that is. *)
Variable getItem : string → except (option string).
Variable JSON_parse : string → except held.

(** The [try] block of the history initialiser: [Return None] when it
    falls through without returning. *)
Definition load_try : except (option held) :=
  saved ← getItem "laundryTrackerHistory";
  match saved with
  | Some (String c text) => h ← JSON_parse (String c text); mret (Some h)
  | _ => mret None
  end.

(** The history initialiser: the history and what it wrote to the
    console. *)
Definition load : held * list string :=
  match load_try with
  | Return (Some h) => (h, [])
  | Return None => (Records [], [])
  | Throw e => (Records [], ["Failed to load history from local storage"])
  end.

End Storage.

(** *** State *)

Record state : Type := {
  step : Step;
  result : option LaundryOrderResult;
  history : ledger;
  isSelectionMode : bool;
  selectedTimestamps : gset Z;
}.

(** [handleSaveAndReset] *)
Definition handleSaveAndReset (finalData : LaundryOrderResult) (st : state)
  : state := {|
  step := INPUT;
  result := None;
  history := finalData :: history st;
  isSelectionMode := isSelectionMode st;
  selectedTimestamps := selectedTimestamps st;
|}.

(** [toggleSelectionMode] *)
Definition toggleSelectionMode (st : state) : state := {|
  step := step st;
  result := result st;
  history := history st;
  isSelectionMode := negb (isSelectionMode st);
  selectedTimestamps := ∅;
|}.

(** [toggleSelection] *)
Definition toggleSelection (timestamp : Z) (st : state) : state := {|
  step := step st;
  result := result st;
  history := history st;
  isSelectionMode := isSelectionMode st;
  selectedTimestamps :=
    if bool_decide (timestamp ∈ selectedTimestamps st)
    then selectedTimestamps st ∖ {[timestamp]}
    else selectedTimestamps st ∪ {[timestamp]};
|}.

Definition confirm_message (n : nat) : string :=
  "Are you sure you want to delete " +:+ Z_toString (Z.of_nat n)
  +:+ " selected items?".

(** [deleteSelected], [confirm] being the answer of [window.confirm]. *)
Definition deleteSelected (confirm : string → bool) (st : state) : state :=
  if Nat.eqb (size (selectedTimestamps st)) 0 then st
  else if confirm (confirm_message (size (selectedTimestamps st))) then {|
    step := step st;
    result := result st;
    history :=
      filter (λ item, timestamp item ∉ selectedTimestamps st) (history st);
    isSelectionMode := false;
    selectedTimestamps := ∅;
  |}
  else st.

(** *** The host: time zone and locale *)

Section Host.

(** The offset of local time from UTC at a time value, in milliseconds,
    and the locale's renderings of a date. *)
Variable LocalTZA : Z → Z.
Variable toLocaleDateString : Z → string.
Variable toLocaleTimeString : Z → string.
Variable toLocaleMonthYear : Z → string.

(** *** CSV export *)

Definition headers : list string :=
  [ "Date"; "Time"; "Laundry Service"; "Order Number"; "Customer Name";
    "Delivery Address"; "Weight (kg)"; "Price (EUR)" ].

Definition double_quotes (s : string) : string :=
  replace_all dquote (String dquote (String dquote "")) s.

(** A field between double quotes, each double quote inside it doubled;
    the [|| ''] of the source is the identity on a string. *)
Definition quoted (s : string) : string :=
  String dquote (double_quotes s) +:+ String dquote "".

Definition quoted_address (s : string) : string :=
  String dquote (replace_all newline " " (double_quotes s))
  +:+ String dquote "".

Definition values (row : LaundryOrderResult) : list string :=
  [ toLocaleDateString (timestamp row);
    toLocaleTimeString (timestamp row);
    quoted (laundry_service_name row);
    quoted (shopify_order_number row);
    quoted (customer_name row);
    quoted_address (delivery_address row);
    weight_toString (laundry_weight_kg row);
    toFixed2 (price_or_zero (price row)) ].

Definition csvRows (history : ledger) : list string :=
  join "," headers :: map (λ row, join "," (values row)) history.

(** [exportToCSV]: the text of the downloaded file, [None] when nothing is
    downloaded. The file name, taken from the current date, is left out. *)
Definition exportToCSV (history : ledger) : option string :=
  if Nat.eqb (length history) 0 then None
  else Some (join (String newline "") (csvRows history)).

(** *** Aggregation *)

Record ServiceGroup : Type := {
  displayName : string;
  records : list LaundryOrderResult;
}.

Record MonthGroup : Type := {
  label : string;
  services : obj ServiceGroup;
}.

(** The [`${getFullYear()}-${String(getMonth() + 1).padStart(2, '0')}`] of
    [new Date(t)]; an invalid date has [NaN] for both. *)
Definition sortKey (t : Z) : string :=
  if valid_time t then
    let local := t + LocalTZA t in
    Z_toString (YearFromTime local) +:+ "-"
    +:+ padStart2 (Z_toString (MonthFromTime local + 1))
  else "NaN-NaN".

Definition normalizedServiceKey (curr : LaundryOrderResult) : string :=
  toLowerCase (trim (laundry_service_name curr)).

(** [!o[k]]: anything but a missing property is an object or a function. *)
Definition missing {A : Type} (p : property A) : bool :=
  match p with
  | Undefined => true
  | _ => false
  end.

(** The callback of [history.reduce]. Reading [.services] or [.records] of
    undefined throws. *)
Definition group_step (acc : obj MonthGroup) (curr : LaundryOrderResult)
  : except (obj MonthGroup) :=
  let key := sortKey (timestamp curr) in
  let acc1 :=
    if missing (get acc key)
    then set acc key {| label := toLocaleMonthYear (timestamp curr);
                        services := [] |}
    else acc in
  match get acc1 key with
  | Own month =>
      let rawName := trim (laundry_service_name curr) in
      let name := toLowerCase rawName in
      let services1 :=
        if missing (get (services month) name)
        then set (services month) name
                 {| displayName := rawName; records := [] |}
        else services month in
      match get services1 name with
      | Own group =>
          mret (set acc1 key {|
            label := label month;
            services := set services1 name {|
              displayName := displayName group;
              records := records group ++ [curr] |} |})
      | _ => Throw TypeError
      end
  | _ => Throw TypeError
  end.

Fixpoint reduce {A B : Type} (f : B → A → except B) (l : list A) (init : B)
  : except B :=
  match l with
  | [] => mret init
  | x :: l' => acc ← f init x; reduce f l' acc
  end.

Definition groupedHistory (history : ledger) : except (obj MonthGroup) :=
  reduce group_step history [].

(** Whether [curr.laundry_service_name.trim()] has a string to trim, for
    an item that is any JSON value: only an object can have the property,
    and only a string has [trim]. *)
Definition has_service_name (item : json) : bool :=
  match item with
  | JObject members =>
      match own members "laundry_service_name" with
      | Some (JString _) => true
      | _ => false
      end
  | _ => false
  end.

(** [groupedHistory], which every render computes, on whatever the
    initialiser gave. On a history that is not an array of records it is
    followed as far as it goes without one: reading [reduce] of [null]
    and calling the [reduce] that a value other than an array lacks
    throw; an empty array gives the empty object; on a first item that
    is [null] or has no service name to trim the callback throws. [None]
    where the callback would go on with an item that is no record. *)
Definition groupedHistory_held (h : held)
  : option (except (obj MonthGroup)) :=
  match h with
  | Records history => Some (groupedHistory history)
  | Foreign (JArray []) => Some (Return [])
  | Foreign (JArray (item :: _)) =>
      if has_service_name item then None else Some (Throw TypeError)
  | Foreign _ => Some (Throw TypeError)
  end.

Definition sortedMonthKeys (grouped : obj MonthGroup) : list string :=
  reverse (sort (Object_keys grouped)).

Definition totalWeight (records : list LaundryOrderResult) : number :=
  foldl (λ sum record, add sum (or_zero (Number (laundry_weight_kg record))))
        zero records.

Definition totalPrice (records : list LaundryOrderResult) : number :=
  foldl (λ sum record, add sum (price_or_zero (price record))) zero records.

(** What is shown for a service group and for a month. *)
Record ServiceCard : Type := {
  card_name : string;
  card_records : list LaundryOrderResult;
  card_weight : number;
  card_price : number;
}.

Record MonthSection : Type := {
  monthKey : string;
  monthLabel : string;
  cards : list ServiceCard;
}.

Definition service_card (g : ServiceGroup) : ServiceCard := {|
  card_name := displayName g;
  card_records := records g;
  card_weight := totalWeight (records g);
  card_price := totalPrice (records g);
|}.

Definition month_section (grouped : obj MonthGroup) (key : string)
  : except MonthSection :=
  match get grouped key with
  | Own month =>
      mret {| monthKey := key;
              monthLabel := label month;
              cards := map service_card (Object_values (services month)) |}
  | _ => Throw TypeError
  end.

Fixpoint sections (grouped : obj MonthGroup) (keys : list string)
  : except (list MonthSection) :=
  match keys with
  | [] => mret []
  | key :: keys' =>
      sec ← month_section grouped key;
      rest ← sections grouped keys';
      mret (sec :: rest)
  end.

(** The saved batches as rendered: [group(L)] of the specification. *)
Definition group (history : ledger) : except (list MonthSection) :=
  grouped ← groupedHistory history;
  sections grouped (sortedMonthKeys grouped).

End Host.

End App.

(** ** Notions the properties are stated with *)

Module Spec.

(** The price the pricing function gives to a weight text: nothing for a
    text that does not parse. *)
Definition price_for_text (price_for : number → number) (text : string)
  : number :=
  if isNaN (parseFloat text) then zero else price_for (parseFloat text).

(** The price shown is the price of the weight text shown. *)
Definition priced (price_for : number → number) (st : ResultsView.state)
  : Prop :=
  ResultsView.currentPrice st
  = price_for_text price_for (ResultsView.editedWeight st).

(** The value a field holds after a sequence of events, given which events
    write it and what it held at first. *)
Definition latest {A : Type} (written : ResultsView.event → option A)
    (init : A) (evs : list ResultsView.event) : A :=
  foldl (λ cur ev, default cur (written ev)) init evs.

Definition weight_written (ev : ResultsView.event) : option string :=
  match ev with
  | ResultsView.SetEditedWeight text => Some text
  | _ => None
  end.

Definition name_written (ev : ResultsView.event) : option string :=
  match ev with
  | ResultsView.SetEditedName text => Some text
  | _ => None
  end.

Definition address_written (ev : ResultsView.event) : option string :=
  match ev with
  | ResultsView.SetEditedAddress text => Some text
  | _ => None
  end.




Fixpoint all_digits (s : string) : bool :=
  match s with
  | EmptyString => true
  | String c s' => is_digit c && all_digits s'
  end.

(** The number of decimal places a text shows: the digits after its first
    point, provided nothing else follows it. *)
Fixpoint decimals (s : string) : option nat :=
  match s with
  | EmptyString => None
  | String c s' =>
      if Ascii.eqb c "."%char then
        if all_digits s' then Some (String.length s') else None
      else decimals s'
  end.

(** A number [toFixed] prints positionally: not infinite and of magnitude
    below [10 ^ 21]. *)
Definition positional (x : number) : bool :=
  match x with
  | S754_zero _ => true
  | S754_finite _ m e =>
      let '(num, den) := fraction m e in num <? 10 ^ 21 * den
  | _ => false
  end.

(** The records an aggregation holds, and the records a rendering shows,
    with their multiplicities. *)
Definition month_records (m : App.MonthGroup) : list LaundryOrderResult :=
  App.services m ≫= λ p, App.records p.2.

Definition grouped_records (grouped : obj App.MonthGroup)
  : list LaundryOrderResult :=
  grouped ≫= λ p, month_records p.2.

Definition section_records (sec : App.MonthSection)
  : list LaundryOrderResult :=
  App.cards sec ≫= App.card_records.

Definition shown_records (secs : list App.MonthSection)
  : list LaundryOrderResult :=
  secs ≫= section_records.

(** The records held for a month key and a service key, none when either
    key is absent. *)
Definition records_at (grouped : obj App.MonthGroup) (k n : string)
  : list LaundryOrderResult :=
  match own grouped k with
  | Some m =>
      match own (App.services m) n with
      | Some g => App.records g
      | None => []
      end
  | None => []
  end.

(** A service group shows the trimmed name of its first record. *)
Definition named_by_first (g : App.ServiceGroup) : Prop :=
  ∃ first rest,
    App.records g = first :: rest
    ∧ App.displayName g = trim (laundry_service_name first).

(** Keys in strictly descending order of code units. *)
Definition descending (keys : list string) : Prop :=
  StronglySorted (λ k1 k2, strict String.le k2 k1) keys.

(** What a weight adds to a total: itself when it is a number, zero when it
    is not one, as the marker of an unclear weight is not. *)
Definition weight_addend (w : weight) : number :=
  if isNaN (Number w) then zero else Number w.

(** What a price adds to a total: itself, and zero when it is absent or not
    a number. *)
Definition price_addend (p : option number) : number :=
  match p with
  | Some x => if isNaN x then zero else x
  | None => zero
  end.

(** The sum of numbers, added up from zero in their order. *)
Definition sum (xs : list number) : number := foldl add zero xs.

Definition is_zero (x : number) : bool :=
  match x with
  | S754_zero _ => true
  | _ => false
  end.

(** The same number, but for the sign of a zero. *)
Definition same_number (x y : number) : Prop :=
  x = y ∨ (is_zero x = true ∧ is_zero y = true).

(** What is shown for a month of an aggregation. *)
Definition section_of (k : string) (m : App.MonthGroup) : App.MonthSection :=
  {| App.monthKey := k;
     App.monthLabel := App.label m;
     App.cards := map App.service_card (Object_values (App.services m)) |}.

(** The sections shown for the given month keys of an aggregation. *)
Definition sections_of (grouped : obj App.MonthGroup) (keys : list string)
    (secs : list App.MonthSection) : Prop :=
  Forall2 (λ k sec, ∃ m, own grouped k = Some m ∧ sec = section_of k m)
          keys secs.

(** The month a record goes to: the one already there, or a new one. *)
Definition month_of (LocalTZA : Z → Z) (toLocaleMonthYear : Z → string)
    (acc : obj App.MonthGroup) (curr : LaundryOrderResult) : App.MonthGroup :=
  default {| App.label := toLocaleMonthYear (timestamp curr);
             App.services := [] |}
          (own acc (App.sortKey LocalTZA (timestamp curr))).

(** The service group a record makes of the one found for it, if any. *)
Definition joined (found : option App.ServiceGroup)
    (curr : LaundryOrderResult) : App.ServiceGroup :=
  {| App.displayName :=
       default (trim (laundry_service_name curr)) (App.displayName <$> found);
     App.records := default [] (App.records <$> found) ++ [curr] |}.

(** The aggregation after one more record, when the step does not throw. *)
Definition stepped (LocalTZA : Z → Z) (toLocaleMonthYear : Z → string)
    (acc : obj App.MonthGroup) (curr : LaundryOrderResult)
  : obj App.MonthGroup :=
  let month := month_of LocalTZA toLocaleMonthYear acc curr in
  set acc (App.sortKey LocalTZA (timestamp curr))
    {| App.label := App.label month;
       App.services :=
         set (App.services month) (App.normalizedServiceKey curr)
             (joined (own (App.services month)
                          (App.normalizedServiceKey curr)) curr) |}.

(** A record whose service key no plain object inherits. *)
Definition plain_service (r : LaundryOrderResult) : Prop :=
  App.normalizedServiceKey r ∉ prototype_keys.

(** What holds of the aggregation of a ledger: month keys and, within a
    month, service keys are distinct; no service key is an inherited name;
    every group shows the name of its first record; the group of a month
    key and a service key holds the records of the ledger with these keys,
    in the ledger's order; and all groups together hold the ledger. *)
Definition grouping (LocalTZA : Z → Z) (history : ledger)
    (grouped : obj App.MonthGroup) : Prop :=
  NoDup (map fst grouped)
  ∧ (∀ k m, own grouped k = Some m →
       NoDup (map fst (App.services m))
       ∧ ∀ n g, own (App.services m) n = Some g →
           (n ∉ prototype_keys) ∧ named_by_first g)
  ∧ (∀ k n,
       records_at grouped k n
       = filter (λ r, App.sortKey LocalTZA (timestamp r) = k
                      ∧ App.normalizedServiceKey r = n) history)
  ∧ grouped_records grouped ≡ₚ history.

End Spec.

(** ** Sample data *)

Module Sample.

Definition order (service : string) (w : weight) (p : option number) (t : Z)
  : LaundryOrderResult := {|
  laundry_service_name := service;
  shopify_order_number := "1042";
  customer_name := "Ana Lima";
  delivery_address := "Rua Um 1";
  laundry_weight_kg := w;
  price := p;
  extraction_confidence_score := parseFloat "0.9";
  timestamp := t;
  weight_image_src := None;
  customer_image_src := None;
|}.

(** 10 January 2024, 20 January 2024 and 5 February 2024, at noon UTC. *)
Definition jan10 : Z := 1704888000000.
Definition jan20 : Z := 1705752000000.
Definition feb05 : Z := 1707134400000.

(** The ledger of the specification's example, newest first. *)
Definition acme_ledger : ledger :=
  [ order "Acme" (WNumber (parseFloat "5.0")) None feb05;
    order "Acme" (WNumber (parseFloat "4.0")) None jan20;
    order "Acme" (WNumber (parseFloat "3.0")) None jan10 ].

Definition selecting (S : gset Z) : App.state := {|
  App.step := INPUT;
  App.result := None;
  App.history := acme_ledger;
  App.isSelectionMode := true;
  App.selectedTimestamps := S;
|}.

(** A draft whose weight could not be read, and one read as 12.5. *)
Definition unclear_draft : LaundryOrderResult :=
  order "Acme" DATA_UNCLEAR None jan10.
Definition draft : LaundryOrderResult :=
  order "Acme" (WNumber (parseFloat "12.5")) (Some (parseFloat "31.25")) jan10.

(** A pricing function: 2.5 for each kilogram. *)
Definition per_kilo (w : number) : number :=
  SFmul prec emax w (parseFloat "2.5").

(** A ledger with a service name in two spellings, and one whose service
    name is inherited by plain objects. *)
Definition spaced : LaundryOrderResult :=
  order "  acme " (WNumber (parseFloat "4")) None jan20.
Definition cased : LaundryOrderResult :=
  order "Acme" (WNumber (parseFloat "3")) None jan10.
Definition inherited_ledger : ledger :=
  [ order "Constructor" (WNumber (parseFloat "5")) None jan10 ].

(** A host in the UTC time zone that renders dates as time values. *)
Definition utc (t : Z) : Z := 0.
Definition plain (t : Z) : string := Z_toString t.

(** What is shown for these ledgers under that host. *)
Definition shown (history : ledger) : list App.MonthSection :=
  match App.group utc plain history with
  | Return secs => secs
  | Throw _ => []
  end.

Definition acme_sections : list App.MonthSection :=
  Eval vm_compute in shown acme_ledger.

Definition spelled_sections : list App.MonthSection :=
  Eval vm_compute in shown [spaced; cased].

Definition february : App.MonthSection :=
  Eval vm_compute in
    default {| App.monthKey := ""; App.monthLabel := ""; App.cards := [] |}
            (head acme_sections).

Definition february_card : App.ServiceCard :=
  Eval vm_compute in
    default {| App.card_name := ""; App.card_records := [];
               App.card_weight := zero; App.card_price := zero |}
            (head (App.cards february)).

(** January of that ledger, with its two records on one card. *)
Definition january : App.MonthSection :=
  Eval vm_compute in
    default {| App.monthKey := ""; App.monthLabel := ""; App.cards := [] |}
            (acme_sections !! 1%nat).

Definition january_card : App.ServiceCard :=
  Eval vm_compute in
    default {| App.card_name := ""; App.card_records := [];
               App.card_weight := zero; App.card_price := zero |}
            (head (App.cards january)).

(** [JSON.parse] as far as these texts go: the serialisation of the
    empty ledger, and four texts that are JSON but no ledger. Every other
    text is refused here. *)
Definition JSON_parse (text : string) : except App.held :=
  if String.eqb text "[]" then Return (App.Records [])
  else if String.eqb text "null" then Return (App.Foreign JNull)
  else if String.eqb text "{}" then Return (App.Foreign (JObject []))
  else if String.eqb text "[null]"
       then Return (App.Foreign (JArray [JNull]))
  else if String.eqb text "[{}]"
       then Return (App.Foreign (JArray [JObject []]))
  else Throw SyntaxError.

End Sample.

(** * Further parts of the application *)

(** ** Comparing numbers *)

Module Compare.

(** [x > y] and [x <= y] on numbers: both are false when either side is
    [NaN]. *)
Definition gt (x y : number) : bool := SFltb y x.
Definition le (x y : number) : bool := SFleb x y.

(** The literals [0.8] and [0.5]. *)
Definition point_eight : number := Eval vm_compute in parseFloat "0.8".
Definition point_five : number := Eval vm_compute in parseFloat "0.5".

End Compare.

(** ** The confidence banner of the results view *)

Module Banner.

Inductive colour : Type := Green | Yellow | Red.

Definition isHighConfidence (data : LaundryOrderResult) : bool :=
  Compare.gt (extraction_confidence_score data) Compare.point_eight.

Definition isMediumConfidence (data : LaundryOrderResult) : bool :=
  Compare.gt (extraction_confidence_score data) Compare.point_five
  && Compare.le (extraction_confidence_score data) Compare.point_eight.

(** The colour of the status banner. *)
Definition banner (data : LaundryOrderResult) : colour :=
  if isHighConfidence data then Green
  else if isMediumConfidence data then Yellow
  else Red.

(** The sentence under the confidence figure. *)
Definition advice (data : LaundryOrderResult) : string :=
  if isHighConfidence data
  then "The data was extracted with high confidence."
  else "Please review the extracted data manually.".

End Banner.

(** ** Price texts *)

Module PriceText.

(** [s || fallback] on strings: the empty string is falsy. *)
Definition or_else (s fallback : string) : string :=
  match s with
  | EmptyString => fallback
  | _ => s
  end.

(** The price in the details modal, without its currency sign: the
    price to two decimals, or the text 0.00 when there is no price or the
    former is empty. *)
Definition modal (data : LaundryOrderResult) : string :=
  match price data with
  | Some x => or_else (toFixed2 x) "0.00"
  | None => "0.00"
  end.

(** The price on a record of a card: [record.price?.toFixed(2)], nothing
    when the price is absent. *)
Definition listed (record : LaundryOrderResult) : option string :=
  match price record with
  | Some x => Some (toFixed2 x)
  | None => None
  end.

(** The price in a row of the export. *)
Definition exported (row : LaundryOrderResult) : string :=
  toFixed2 (price_or_zero (price row)).

End PriceText.

(** ** Persisting the ledger *)

Module Persistence.

Section Store.

(** The host's time zone and month names, which the first render reads. *)
Variable LocalTZA : Z → Z.
Variable toLocaleMonthYear : Z → string.

(** [JSON.stringify] and [JSON.parse] on what the history state holds, and
    whether [localStorage.setItem] takes a text in place of what is stored
    under the history key or throws (a full or denied store). *)
Variable JSON_stringify : App.held → string.
Variable JSON_parse : string → except App.held.
Variable accepts : option string → string → bool.

(** What the store holds under the history key. *)
Definition store : Type := option string.

(** The effect that runs after every change of the history: the store
    afterwards and what was written to the console. *)
Definition save (stored : store) (history : App.held)
  : store * list string :=
  let text := JSON_stringify history in
  if accepts stored text then (Some text, [])
  else (stored, ["Failed to save history to local storage"]).

(** The history initialiser reading from that store. *)
Definition load (stored : store) : App.held * list string :=
  App.load (λ _, Return stored) JSON_parse.

(** The store after the effect has run on each history of a list in
    turn. *)
Definition saves (stored : store) (histories : list App.held) : store :=
  fold_left (λ s history, (save s history).1) histories stored.

(** Mounting the application: the initialiser, the first render, and the
    effect on the history the initialiser gave. The history in memory and
    the store afterwards. A render that throws commits nothing and its
    effects do not run, so that the store is then left as it is; every
    render computes [groupedHistory], and nothing else in it throws.
    [None] where [App.groupedHistory_held] is. *)
Definition mount (stored : store) : option (App.held * store) :=
  let history := (load stored).1 in
  match App.groupedHistory_held LocalTZA toLocaleMonthYear history with
  | Some (Return _) => Some (history, (save stored history).1)
  | Some (Throw _) => Some (history, stored)
  | None => None
  end.

End Store.

End Persistence.

(** ** The whole component *)

Module Component.

Section Handlers.

(** The type of an uploaded photograph, and the pricing function. *)
Variable File : Type.
Variable calculatePrice : number → number.

(** The state of [App]: the part modelled as [App.state] and the rest. *)
Record state : Type := {
  core : App.state;
  serviceName : string;
  weightPhoto : option File;
  customerPhoto : option File;
  error : option string;
  selectedOrder : option LaundryOrderResult;
}.

Definition initial (history : ledger) : state := {|
  core := {| App.step := INPUT;
             App.result := None;
             App.history := history;
             App.isSelectionMode := false;
             App.selectedTimestamps := ∅ |};
  serviceName := "";
  weightPhoto := None;
  customerPhoto := None;
  error := None;
  selectedOrder := None;
|}.

Definition with_core (f : App.state → App.state) (st : state) : state := {|
  core := f (core st);
  serviceName := serviceName st;
  weightPhoto := weightPhoto st;
  customerPhoto := customerPhoto st;
  error := error st;
  selectedOrder := selectedOrder st;
|}.

Definition setError (e : option string) (st : state) : state := {|
  core := core st;
  serviceName := serviceName st;
  weightPhoto := weightPhoto st;
  customerPhoto := customerPhoto st;
  error := e;
  selectedOrder := selectedOrder st;
|}.

Definition setSelectedOrder (o : option LaundryOrderResult) (st : state)
  : state := {|
  core := core st;
  serviceName := serviceName st;
  weightPhoto := weightPhoto st;
  customerPhoto := customerPhoto st;
  error := error st;
  selectedOrder := o;
|}.

Definition setServiceName (s : string) (st : state) : state := {|
  core := core st;
  serviceName := s;
  weightPhoto := weightPhoto st;
  customerPhoto := customerPhoto st;
  error := error st;
  selectedOrder := selectedOrder st;
|}.

Definition setWeightPhoto (f : option File) (st : state) : state := {|
  core := core st;
  serviceName := serviceName st;
  weightPhoto := f;
  customerPhoto := customerPhoto st;
  error := error st;
  selectedOrder := selectedOrder st;
|}.

Definition setCustomerPhoto (f : option File) (st : state) : state := {|
  core := core st;
  serviceName := serviceName st;
  weightPhoto := weightPhoto st;
  customerPhoto := f;
  error := error st;
  selectedOrder := selectedOrder st;
|}.

Definition setStep (s : Step) (c : App.state) : App.state := {|
  App.step := s;
  App.result := App.result c;
  App.history := App.history c;
  App.isSelectionMode := App.isSelectionMode c;
  App.selectedTimestamps := App.selectedTimestamps c;
|}.

Definition setResult (r : option LaundryOrderResult) (c : App.state)
  : App.state := {|
  App.step := App.step c;
  App.result := r;
  App.history := App.history c;
  App.isSelectionMode := App.isSelectionMode c;
  App.selectedTimestamps := App.selectedTimestamps c;
|}.

(** The request [handleSubmit] sends to the extraction service. *)
Definition request : Type := string * File * File.

(** [handleSubmit] up to its [await]: the state, and the request when one
    is sent. *)
Definition handleSubmit (st : state) : state * option request :=
  match serviceName st, weightPhoto st, customerPhoto st with
  | String c s, Some weight, Some customer =>
      (setError None (with_core (setStep PROCESSING) st),
       Some (String c s, weight, customer))
  | _, _, _ => (setError (Some "Please complete all fields.") st, None)
  end.

(** [handleSubmit] from its [await] on, [outcome] being what the
    extraction resolved to or the error it rejected with. *)
Definition handleSubmit_settled (outcome : except LaundryOrderResult)
    (st : state) : state :=
  match outcome with
  | Return data =>
      with_core (setStep RESULT) (with_core (setResult (Some data)) st)
  | Throw _ =>
      with_core (setStep INPUT)
        (setError
           (Some ("Failed to process the order. Please ensure the API key "
                  +:+ "is valid and try again.")) st)
  end.

(** [handleSaveAndReset] with the form fields it clears. *)
Definition handleSaveAndReset (finalData : LaundryOrderResult) (st : state)
  : state := {|
  core := App.handleSaveAndReset finalData (core st);
  serviceName := "";
  weightPhoto := None;
  customerPhoto := None;
  error := None;
  selectedOrder := selectedOrder st;
|}.

(** [handleDiscard] *)
Definition handleDiscard (st : state) : state :=
  with_core (setStep INPUT) (with_core (setResult None) st).

(** The click handler of a record in the saved batches. *)
Definition clickRecord (record : LaundryOrderResult) (st : state) : state :=
  if App.isSelectionMode (core st)
  then with_core (App.toggleSelection (timestamp record)) st
  else setSelectedOrder (Some record) st.

(** What can happen to the component. [Settled] is the extraction
    resolving or rejecting, [Saved] the operator's edits in the results
    view followed by its save button, [Deleted] the delete button with the
    answer given to the confirmation. *)
Inductive event : Type :=
  | ServiceNameTyped (s : string)
  | WeightPhotoPicked (f : option File)
  | CustomerPhotoPicked (f : option File)
  | Submitted
  | Settled (outcome : except LaundryOrderResult)
  | Saved (edits : list ResultsView.event)
  | Discarded
  | SelectionModeToggled
  | RecordClicked (record : LaundryOrderResult)
  | Deleted (answer : bool)
  | ModalClosed.

Definition handle (st : state) (ev : event) : state :=
  match ev with
  | ServiceNameTyped s => setServiceName s st
  | WeightPhotoPicked f => setWeightPhoto f st
  | CustomerPhotoPicked f => setCustomerPhoto f st
  | Submitted => (handleSubmit st).1
  | Settled outcome => handleSubmit_settled outcome st
  | Saved edits =>
      match App.result (core st) with
      | Some data =>
          handleSaveAndReset
            (ResultsView.handleSave data
               (ResultsView.run calculatePrice data edits)) st
      | None => st
      end
  | Discarded => handleDiscard st
  | SelectionModeToggled => with_core App.toggleSelectionMode st
  | RecordClicked record => clickRecord record st
  | Deleted answer => with_core (App.deleteSelected (λ _, answer)) st
  | ModalClosed => setSelectedOrder None st
  end.

(** The component after a sequence of events. *)
Definition run (st : state) (evs : list event) : state :=
  foldl handle st evs.

(** When the control that raises an event is on the page: the form in step
    [INPUT], the results view in step [RESULT] with a draft, the saved
    batches in step [INPUT], the delete button in selection mode with a
    selection, the modal with an order; the extraction settles while the
    step is [PROCESSING]. The saved batches need a ledger with a record
    besides, and the submit button complete inputs, which is left out
    here: what holds of the states reached under these conditions holds
    of those reached under stronger ones. *)
Definition enabled (st : state) (ev : event) : Prop :=
  match ev with
  | ServiceNameTyped _ | WeightPhotoPicked _ | CustomerPhotoPicked _
  | Submitted => App.step (core st) = INPUT
  | Settled _ => App.step (core st) = PROCESSING
  | Saved _ | Discarded =>
      App.step (core st) = RESULT ∧ is_Some (App.result (core st))
  | SelectionModeToggled => App.step (core st) = INPUT
  | RecordClicked record =>
      App.step (core st) = INPUT ∧ record ∈ App.history (core st)
  | Deleted _ =>
      App.step (core st) = INPUT
      ∧ App.isSelectionMode (core st) = true
      ∧ App.selectedTimestamps (core st) ≠ ∅
  | ModalClosed => is_Some (selectedOrder st)
  end.

(** Every event of a sequence finds its control on the page. *)
Fixpoint enabled_along (st : state) (evs : list event) : Prop :=
  match evs with
  | [] => True
  | ev :: evs' => enabled st ev ∧ enabled_along (handle st ev) evs'
  end.

(** The states the component can be in, having started with the given
    ledger. *)
Inductive reachable (loaded : ledger) : state → Prop :=
  | reachable_initial : reachable loaded (initial loaded)
  | reachable_step st ev :
      reachable loaded st → enabled st ev → reachable loaded (handle st ev).

End Handlers.

Arguments core {File} s.
Arguments serviceName {File} s.
Arguments weightPhoto {File} s.
Arguments customerPhoto {File} s.
Arguments error {File} s.
Arguments selectedOrder {File} s.
Arguments ServiceNameTyped {File} s.
Arguments WeightPhotoPicked {File} f.
Arguments CustomerPhotoPicked {File} f.
Arguments Submitted {File}.
Arguments Settled {File} outcome.
Arguments Saved {File} edits.
Arguments Discarded {File}.
Arguments SelectionModeToggled {File}.
Arguments RecordClicked {File} record.
Arguments Deleted {File} answer.
Arguments ModalClosed {File}.
Arguments handleSubmit {File} st.
Arguments handleSubmit_settled {File} outcome st.
Arguments handleSaveAndReset {File} finalData st.
Arguments handleDiscard {File} st.
Arguments clickRecord {File} record st.
Arguments enabled {File} st ev.
Arguments handle {File} calculatePrice st ev.
Arguments run {File} calculatePrice st evs.
Arguments enabled_along {File} calculatePrice st evs.

(** What holds of every state the component can be in: a draft exactly in
    step [RESULT]; nothing selected outside selection mode, and only
    timestamps of the ledger; every record either loaded or saved by the
    results view; the form complete and no error shown beyond step
    [INPUT]. *)
Definition invariant {File : Type} (loaded : ledger) (st : state File)
  : Prop :=
  (App.step (core st) = RESULT ↔ is_Some (App.result (core st)))
  ∧ (App.isSelectionMode (core st) = false →
       App.selectedTimestamps (core st) = ∅)
  ∧ (∀ t, t ∈ App.selectedTimestamps (core st) →
          t ∈ map timestamp (App.history (core st)))
  ∧ (∀ r, r ∈ App.history (core st) →
          r ∈ loaded
          ∨ ((∃ n, laundry_weight_kg r = WNumber n ∧ isNaN n = false)
             ∧ is_Some (price r)))
  ∧ (App.step (core st) ≠ INPUT →
       serviceName st ≠ ""
       ∧ is_Some (weightPhoto st)
       ∧ is_Some (customerPhoto st)
       ∧ error st = None).

End Component.

(** ** Reading CSV text *)

Module Reader.

(** Where the reader is: at the start of a field, inside an unquoted
    field, inside a quoted field, or just after a quote inside a quoted
    field. *)
Inductive mode : Type := Start | Bare | Quoted | Closing.

Definition comma : ascii := ascii_of_nat 44.

(** The rows read so far grow from their first field: one more character
    in front of it, one more field in front of it, one more row. *)
Definition push (c : ascii) (rows : list (list string))
  : list (list string) :=
  match rows with
  | (field :: fields) :: rows' => (String c field :: fields) :: rows'
  | _ => rows
  end.

Definition next_field (rows : list (list string)) : list (list string) :=
  match rows with
  | fields :: rows' => (EmptyString :: fields) :: rows'
  | [] => rows
  end.

Definition next_row (rows : list (list string)) : list (list string) :=
  [EmptyString] :: rows.

(** Reading CSV text (RFC 4180): fields separated by commas, rows by
    newlines, a field between double quotes holding commas, newlines and
    doubled quotes. [None] for a quoted field that is not closed or is
    followed by text. *)
Fixpoint read (s : string) (m : mode) : option (list (list string)) :=
  match s with
  | EmptyString =>
      match m with
      | Quoted => None
      | _ => Some [[EmptyString]]
      end
  | String c s' =>
      match m with
      | Start =>
          if Ascii.eqb c dquote then read s' Quoted
          else if Ascii.eqb c comma then next_field <$> read s' Start
          else if Ascii.eqb c newline then next_row <$> read s' Start
          else push c <$> read s' Bare
      | Bare =>
          if Ascii.eqb c comma then next_field <$> read s' Start
          else if Ascii.eqb c newline then next_row <$> read s' Start
          else push c <$> read s' Bare
      | Quoted =>
          if Ascii.eqb c dquote then read s' Closing
          else push c <$> read s' Quoted
      | Closing =>
          if Ascii.eqb c dquote then push dquote <$> read s' Quoted
          else if Ascii.eqb c comma then next_field <$> read s' Start
          else if Ascii.eqb c newline then next_row <$> read s' Start
          else None
      end
  end.

(** A text that can stand as an unquoted field: no comma, no newline, and
    no double quote at all. *)
Fixpoint plain (s : string) : bool :=
  match s with
  | EmptyString => true
  | String c s' =>
      negb (Ascii.eqb c comma) && negb (Ascii.eqb c newline)
      && negb (Ascii.eqb c dquote) && plain s'
  end.

(** A field read in front of the rows read after it. *)
Definition prepend (field : string) (rows : list (list string))
  : list (list string) :=
  match rows with
  | (field' :: fields) :: rows' => ((field +:+ field') :: fields) :: rows'
  | _ => rows
  end.

(** A text at which a field can end: the end of the text, a comma or a
    newline. *)
Definition separated (rest : string) : Prop :=
  match rest with
  | EmptyString => True
  | String c _ => c = comma ∨ c = newline
  end.

(** A text at which a row can end: the end of the text or a newline. *)
Definition ended (rest : string) : Prop :=
  match rest with
  | EmptyString => True
  | String c _ => c = newline
  end.

(** The rows after the row that ends at [rest]. *)
Definition rows_after (rest : string) : option (list (list string)) :=
  match rest with
  | EmptyString => Some []
  | String _ rest' => read rest' Start
  end.

(** A field as a text of the file: as it is when it is plain, or between
    double quotes with its own double quotes doubled. *)
Definition written (text field : string) : Prop :=
  (plain field = true ∧ text = field) ∨ text = App.quoted field.

(** The fields of a record as a reader should find them. *)
Definition fields (toLocaleDateString toLocaleTimeString : Z → string)
    (row : LaundryOrderResult) : list string :=
  [ toLocaleDateString (timestamp row);
    toLocaleTimeString (timestamp row);
    laundry_service_name row;
    shopify_order_number row;
    customer_name row;
    replace_all newline " " (delivery_address row);
    weight_toString (laundry_weight_kg row);
    PriceText.exported row ].

End Reader.

(** ** More notions the properties are stated with *)

Module More.

(** A record as the results view saves it: a weight that is a number and
    not [NaN], and a price. *)
Definition confirmed (r : LaundryOrderResult) : Prop :=
  (∃ n, laundry_weight_kg r = WNumber n ∧ isNaN n = false)
  ∧ is_Some (price r).

Definition timestamps (history : ledger) : list Z := map timestamp history.

(** A draft with another price. *)
Definition with_price (p : option number) (data : LaundryOrderResult)
  : LaundryOrderResult := {|
  laundry_service_name := laundry_service_name data;
  shopify_order_number := shopify_order_number data;
  customer_name := customer_name data;
  delivery_address := delivery_address data;
  laundry_weight_kg := laundry_weight_kg data;
  price := p;
  extraction_confidence_score := extraction_confidence_score data;
  timestamp := timestamp data;
  weight_image_src := weight_image_src data;
  customer_image_src := customer_image_src data;
|}.

(** A record made of a draft: what the results view cannot edit is the
    draft's. *)
Definition made_of (r data : LaundryOrderResult) : Prop :=
  laundry_service_name r = laundry_service_name data
  ∧ shopify_order_number r = shopify_order_number data
  ∧ extraction_confidence_score r = extraction_confidence_score data
  ∧ timestamp r = timestamp data
  ∧ weight_image_src r = weight_image_src data
  ∧ customer_image_src r = customer_image_src data.

(** How good a banner is. *)
Definition rank (c : Banner.colour) : Z :=
  match c with
  | Banner.Red => 0
  | Banner.Yellow => 1
  | Banner.Green => 2
  end.

(** Where a number stands among the numbers: its class, then exponent and
    mantissa as [SFcompare] reads them. *)
Definition position (x : number) : Z * Z * Z :=
  match x with
  | S754_infinity true => (-2, 0, 0)
  | S754_finite true m e => (-1, - e, - Zpos m)
  | S754_zero _ => (0, 0, 0)
  | S754_nan => (0, 0, 0)
  | S754_finite false m e => (1, e, Zpos m)
  | S754_infinity false => (2, 0, 0)
  end.

Definition before (p q : Z * Z * Z) : Prop :=
  p.1.1 < q.1.1
  ∨ (p.1.1 = q.1.1 ∧ (p.1.2 < q.1.2 ∨ (p.1.2 = q.1.2 ∧ p.2 < q.2))).

(** The React keys of a month section and of a card within it. *)
Definition section_key (sec : App.MonthSection) : string := App.monthKey sec.

Definition card_key (sec : App.MonthSection) (card : App.ServiceCard)
  : string :=
  App.monthKey sec +:+ "-" +:+ App.card_name card.

(** The distinct keys of a list, in the order of their first
    occurrence. *)
Definition first_seen (keys : list string) : list string :=
  foldl (λ seen k, if bool_decide (k ∈ seen) then seen else seen ++ [k])
        [] keys.

(** The records of a ledger that fall into a month, in the ledger's
    order. *)
Definition of_month (LocalTZA : Z → Z) (k : string) (history : ledger)
  : ledger :=
  filter (λ r, App.sortKey LocalTZA (timestamp r) = k) history.

(** What holds of the order within the aggregation of a ledger: a month is
    there exactly when a record falls into it, it has the label of the
    first such record, and its service keys are in the order in which
    these records first show them. *)
Definition ordered (LocalTZA : Z → Z) (toLocaleMonthYear : Z → string)
    (history : ledger) (grouped : obj App.MonthGroup) : Prop :=
  ∀ k,
    match own grouped k with
    | Some m =>
        map fst (App.services m)
        = first_seen (map App.normalizedServiceKey
                          (of_month LocalTZA k history))
        ∧ ∃ first rest,
            of_month LocalTZA k history = first :: rest
            ∧ App.label m = toLocaleMonthYear (timestamp first)
    | None => of_month LocalTZA k history = []
    end.

(** No month of an aggregation is without a service group. *)
Definition months_inhabited (grouped : obj App.MonthGroup) : Prop :=
  ∀ k m, own grouped k = Some m → App.services m ≠ [].

End More.

(** ** A sample session *)

Module Session.

(** Photographs stand for themselves. *)
Definition photo : Type := unit.

(** The operator fills in the form and submits it, and the extraction
    returns a draft. *)
Definition submitting : list (Component.event photo) :=
  [ Component.ServiceNameTyped "Acme";
    Component.WeightPhotoPicked (Some ());
    Component.CustomerPhotoPicked (Some ());
    Component.Submitted;
    Component.Settled (Return Sample.draft) ].

(** The operator then corrects the weight and saves. *)
Definition saving : list (Component.event photo) :=
  submitting ++ [ Component.Saved [ResultsView.SetEditedWeight "7"] ].

(** The operator enters selection mode and selects the record of 20
    January. *)
Definition choosing : list (Component.event photo) :=
  [ Component.SelectionModeToggled;
    Component.RecordClicked
      (Sample.order "Acme" (WNumber (parseFloat "4.0")) None Sample.jan20) ].

Definition after (evs : list (Component.event photo))
  : Component.state photo :=
  Component.run Sample.per_kilo
    (Component.initial photo Sample.acme_ledger) evs.

(** The record the results view saves in [saving]. *)
Definition saved : LaundryOrderResult :=
  ResultsView.handleSave Sample.draft
    (ResultsView.run Sample.per_kilo Sample.draft
       [ResultsView.SetEditedWeight "7"]).

(** An application at rest with one record of February. *)
Definition idle : App.state := {|
  App.step := INPUT;
  App.result := None;
  App.history :=
    [ Sample.order "Acme" (WNumber (parseFloat "5.0")) None Sample.feb05 ];
  App.isSelectionMode := false;
  App.selectedTimestamps := ∅;
|}.


(** Drafts with confidence 0.6 and 0.85. *)
Definition scored (score : string) : LaundryOrderResult := {|
  laundry_service_name := "Acme";
  shopify_order_number := "1042";
  customer_name := "Ana Lima";
  delivery_address := "Rua Um 1";
  laundry_weight_kg := WNumber (parseFloat "12.5");
  price := Some (parseFloat "31.25");
  extraction_confidence_score := parseFloat score;
  timestamp := Sample.jan10;
  weight_image_src := None;
  customer_image_src := None;
|}.

(** A store that takes short texts only, a serialiser that writes the
    number of records, and a parser that reads three records as the sample
    ledger and nothing else. *)
Definition stringify (history : App.held) : string :=
  match history with
  | App.Records records => Z_toString (Z.of_nat (length records))
  | App.Foreign _ => "null"
  end.

Definition parse (text : string) : except App.held :=
  if String.eqb text "3" then Return (App.Records Sample.acme_ledger)
  else Throw SyntaxError.

Definition accepts (stored : option string) (text : string) : bool :=
  Nat.leb (String.length text) 1.

Definition eleven : App.held := App.Records (replicate 11 Sample.draft).

(** A January of four records and two services, the newest record
    first, and what is shown for it. *)
Definition mixed : ledger :=
  [ Sample.order "Beta" (WNumber (parseFloat "4")) None Sample.jan20;
    Sample.order "Acme" (WNumber (parseFloat "3")) None Sample.jan20;
    Sample.order " beta" (WNumber (parseFloat "2")) None Sample.jan10;
    Sample.order "ACME" (WNumber (parseFloat "1")) None Sample.jan10 ].

Definition mixed_sections : list App.MonthSection :=
  Eval vm_compute in Sample.shown mixed.

Definition mixed_january : App.MonthSection :=
  Eval vm_compute in
    default {| App.monthKey := ""; App.monthLabel := ""; App.cards := [] |}
            (head mixed_sections).

End Session.

(** * Properties *)

(** ** The model of the language on known values *)

Section Known.

Example parseFloat_tenth :
  parseFloat "0.1" = S754_finite false 7205759403792794 (-56).
Proof. by vm_compute. Qed.

Example parseFloat_prefix :
  parseFloat "  12.5kg" = parseFloat "12.5"
  ∧ parseFloat "1e" = parseFloat "1"
  ∧ parseFloat ".5" = parseFloat "0.5"
  ∧ parseFloat "-Infinity" = S754_infinity true
  ∧ parseFloat "1e309" = Infinity
  ∧ parseFloat "" = NaN
  ∧ parseFloat "DATA_UNCLEAR" = NaN.
Proof. by vm_compute. Qed.

Example StringToNumber_whole :
  StringToNumber "" = zero
  ∧ StringToNumber " 12.5 " = parseFloat "12.5"
  ∧ StringToNumber "12.5kg" = NaN
  ∧ StringToNumber "0x1F" = parseFloat "31"
  ∧ StringToNumber "DATA_UNCLEAR" = NaN.
Proof. by vm_compute. Qed.

Example add_tenths :
  Number_toString (add (parseFloat "0.1") (parseFloat "0.2"))
  = "0.30000000000000004".
Proof. by vm_compute. Qed.

Example Number_toString_shapes :
  Number_toString (parseFloat "12.50") = "12.5"
  ∧ Number_toString (parseFloat "1e21") = "1e+21"
  ∧ Number_toString (parseFloat "123456789012345680000")
    = "123456789012345680000"
  ∧ Number_toString (parseFloat "0.000001") = "0.000001"
  ∧ Number_toString (parseFloat "0.0000001") = "1e-7"
  ∧ Number_toString (parseFloat "-0") = "0"
  ∧ Number_toString NaN = "NaN".
Proof. by vm_compute. Qed.

Example toFixed2_rounds :
  toFixed2 (parseFloat "1.005") = "1.00"
  ∧ toFixed2 (parseFloat "8.345") = "8.35"
  ∧ toFixed2 (parseFloat "2.5") = "2.50"
  ∧ toFixed2 (parseFloat "-0.001") = "-0.00"
  ∧ toFixed2 (parseFloat "1e21") = "1e+21".
Proof. by vm_compute. Qed.

Example trim_lower : toLowerCase (trim "  AcMe Wash ") = "acme wash".
Proof. by vm_compute. Qed.

Example months_of_times :
  App.sortKey Sample.utc 0 = "1970-01"
  ∧ App.sortKey Sample.utc (-1) = "1969-12"
  ∧ App.sortKey Sample.utc 1709251199999 = "2024-02"
  ∧ App.sortKey Sample.utc 1709251200000 = "2024-03"
  ∧ App.sortKey (λ _, 3600000) 1709251199999 = "2024-03"
  ∧ App.sortKey Sample.utc 8640000000000001 = "NaN-NaN".
Proof. by vm_compute. Qed.

Example own_keys_order :
  Object_keys [("b", 1); ("10", 2); ("a", 3); ("2", 4); ("01", 5)]
  = ["2"; "10"; "b"; "a"; "01"].
Proof. by vm_compute. Qed.

Example inherited_names :
  get [("acme", 1)] "acme" = Own 1
  ∧ get [("acme", 1)] "constructor" = Inherited
  ∧ get [("acme", 1)] "wash" = Undefined.
Proof. by vm_compute. Qed.

End Known.

(** ** Selection and deletion *)

Section Deletion.

Implicit Types (st : App.state) (confirm : string → bool).

Lemma size_zero_empty (S : gset Z) : Nat.eqb (size S) 0 = true ↔ S = ∅.
Proof.
  rewrite Nat.eqb_eq, size_empty_iff. by unfold_leibniz.
Qed.

Lemma filter_all {A : Type} (P : A → Prop) `{!∀ x, Decision (P x)}
    (l : list A) :
  (∀ x, x ∈ l → P x) → filter P l = l.
Proof.
  induction l as [|x l IH]; intros Hall; [done|].
  rewrite filter_cons, decide_True by (apply Hall; left).
  f_equal. apply IH. intros y Hy. apply Hall. by right.
Qed.

(** C4. Once the confirmation gate has answered yes, deleting the selection
    [S] leaves exactly the records of the ledger whose timestamp is not in
    [S], in their order, leaves selecting mode and empties the selection;
    with an empty selection nothing changes at all, whatever the gate would
    answer. *)
Theorem deleteSelected_commit confirm st :
  confirm (App.confirm_message (size (App.selectedTimestamps st))) = true →
  let S := App.selectedTimestamps st in
  let st' := App.deleteSelected confirm st in
  App.history st' = filter (λ r, timestamp r ∉ S) (App.history st)
  ∧ (∀ r, r ∈ App.history st' ↔ r ∈ App.history st ∧ timestamp r ∉ S)
  ∧ App.history st' `sublist_of` App.history st
  ∧ (S ≠ ∅ → App.isSelectionMode st' = false)
  ∧ App.selectedTimestamps st' = ∅
  ∧ (S = ∅ → ∀ gate, App.deleteSelected gate st = st).
Proof.
  intros Hyes S st'. subst st'. unfold App.deleteSelected. fold S.
  destruct (Nat.eqb (size S) 0) eqn:Hsz.
  - apply size_zero_empty in Hsz.
    assert (Hid : filter (λ r, timestamp r ∉ S) (App.history st)
                  = App.history st).
    { apply filter_all. intros r _. rewrite Hsz. set_solver. }
    rewrite Hid. split_and!; try done.
    intros r. split; [|tauto]. intros Hr. split; [done|].
    rewrite Hsz. set_solver.
  - subst S. rewrite Hyes. simpl. split_and!; try done.
    + intros r. rewrite list_elem_of_filter. tauto.
    + apply sublist_filter.
    + intros HS. apply size_zero_empty in HS. congruence.
Qed.

Lemma toggleSelection_member (t t' : Z) st :
  t' ∈ App.selectedTimestamps (App.toggleSelection t st) ↔
  if bool_decide (t' = t) then t ∉ App.selectedTimestamps st
  else t' ∈ App.selectedTimestamps st.
Proof.
  unfold App.toggleSelection. simpl.
  destruct (decide (t' = t)) as [-> | Hne].
  - rewrite (bool_decide_true (t = t)) by done.
    case_bool_decide as Hin.
    + rewrite elem_of_difference, elem_of_singleton. tauto.
    + rewrite elem_of_union, elem_of_singleton. tauto.
  - rewrite (bool_decide_false (t' = t)) by done.
    case_bool_decide as Hin.
    + rewrite elem_of_difference, elem_of_singleton. tauto.
    + rewrite elem_of_union, elem_of_singleton. tauto.
Qed.

Lemma toggleSelection_twice (t : Z) st :
  App.selectedTimestamps (App.toggleSelection t (App.toggleSelection t st))
  = App.selectedTimestamps st.
Proof.
  apply set_eq. intros t'. rewrite toggleSelection_member.
  case_bool_decide as Ht; [|by rewrite toggleSelection_member, bool_decide_false].
  subst t'. rewrite toggleSelection_member, bool_decide_true by done.
  destruct (decide (t ∈ App.selectedTimestamps st)); tauto.
Qed.

Lemma toggleSelectionMode_clears st :
  App.selectedTimestamps (App.toggleSelectionMode st) = ∅
  ∧ App.isSelectionMode (App.toggleSelectionMode st)
    = negb (App.isSelectionMode st)
  ∧ App.history (App.toggleSelectionMode st) = App.history st.
Proof. done. Qed.

Lemma handleSaveAndReset_prepends finalData st :
  App.history (App.handleSaveAndReset finalData st)
  = finalData :: App.history st.
Proof. done. Qed.

Lemma deleteSelected_declined confirm st :
  confirm (App.confirm_message (size (App.selectedTimestamps st))) = false →
  App.deleteSelected confirm st = st.
Proof.
  intros Hno. unfold App.deleteSelected.
  destruct (Nat.eqb _ 0); [done | by rewrite Hno].
Qed.

Lemma deleteSelected_commit_witness :
  let st := Sample.selecting {[Sample.jan20]} in
  let st' := App.deleteSelected (λ _, true) st in
  App.history st' = filter (λ r, timestamp r ∉ App.selectedTimestamps st)
                           (App.history st)
  ∧ (∀ r, r ∈ App.history st'
          ↔ r ∈ App.history st ∧ timestamp r ∉ App.selectedTimestamps st)
  ∧ App.history st' `sublist_of` App.history st
  ∧ (App.selectedTimestamps st ≠ ∅ → App.isSelectionMode st' = false)
  ∧ App.selectedTimestamps st' = ∅
  ∧ (App.selectedTimestamps st = ∅ → ∀ gate, App.deleteSelected gate st = st).
Proof.
  exact (deleteSelected_commit (λ _, true)
           (Sample.selecting {[Sample.jan20]}) eq_refl).
Defined.

End Deletion.

(** ** Loading the ledger *)

Section Load.

Variable getItem : string → except (option string).
Variable JSON_parse : string → except App.held.

Local Abbreviation stored := (getItem "laundryTrackerHistory").
Local Abbreviation failed := ["Failed to load history from local storage"].

Lemma load_try_cases :
  App.load_try getItem JSON_parse =
  match stored with
  | Return (Some (String c text)) =>
      match JSON_parse (String c text) with
      | Return h => Return (Some h)
      | Throw e => Throw e
      end
  | Return _ => Return None
  | Throw e => Throw e
  end.
Proof.
  unfold App.load_try.
  destruct stored as [[[|c text]|]|e]; simpl; try done.
  all: by destruct (JSON_parse (String c text)).
Qed.

(** C9, as the code has it. Loading gives back what the stored text
    parses to, as it is and with nothing on the console: the stored ledger
    when the text is the serialisation of one, and just as well a JSON
    value that is no ledger. It gives an empty ledger when the text does
    not parse, when nothing (or an empty text) is stored, and when storage
    itself fails; a failure leaves a line on the console and nothing else.
    [load] has no exceptional outcome. *)
Theorem load_swallows_failures :
  (∀ text h, stored = Return (Some text) → text ≠ "" →
     JSON_parse text = Return h →
     App.load getItem JSON_parse = (h, []))
  ∧ (∀ text history, stored = Return (Some text) → text ≠ "" →
       JSON_parse text = Return (App.Records history) →
       App.load getItem JSON_parse = (App.Records history, []))
  ∧ (∀ text e, stored = Return (Some text) → text ≠ "" →
       JSON_parse text = Throw e →
       App.load getItem JSON_parse = (App.Records [], failed))
  ∧ (stored = Return None ∨ stored = Return (Some "") →
       App.load getItem JSON_parse = (App.Records [], []))
  ∧ (∀ e, stored = Throw e →
       App.load getItem JSON_parse = (App.Records [], failed)).
Proof.
  unfold App.load. rewrite load_try_cases. split_and!.
  - intros [|c text] h -> Hne Hp; [done|]. by rewrite Hp.
  - intros [|c text] h -> Hne Hp; [done|]. by rewrite Hp.
  - intros [|c text] e -> Hne Hp; [done|]. by rewrite Hp.
  - by intros [-> | ->].
  - by intros e ->.
Qed.

End Load.

Lemma load_swallows_failures_witness :
  App.load (λ _, Return (Some "[]")) (λ _, Return (App.Records Sample.acme_ledger))
    = (App.Records Sample.acme_ledger, [])
  ∧ App.load (λ _, Return (Some "[{")) Sample.JSON_parse
    = (App.Records [], ["Failed to load history from local storage"])
  ∧ App.load (λ _, Return None) Sample.JSON_parse = (App.Records [], [])
  ∧ App.load (λ _, Throw SecurityError) Sample.JSON_parse
    = (App.Records [], ["Failed to load history from local storage"]).
Proof.
  split_and!.
  - exact (proj1 (proj2 (load_swallows_failures
                    (λ _, Return (Some "[]"))
                    (λ _, Return (App.Records Sample.acme_ledger))))
                 "[]" Sample.acme_ledger eq_refl ltac:(discriminate) eq_refl).
  - exact (proj1 (proj2 (proj2 (load_swallows_failures
                    (λ _, Return (Some "[{")) Sample.JSON_parse)))
                 "[{" SyntaxError eq_refl ltac:(discriminate) eq_refl).
  - exact (proj1 (proj2 (proj2 (proj2 (load_swallows_failures
                    (λ _, Return None) Sample.JSON_parse))))
                 (or_introl eq_refl)).
  - exact (proj2 (proj2 (proj2 (proj2 (load_swallows_failures
                    (λ _, Throw SecurityError) Sample.JSON_parse))))
                 SecurityError eq_refl).
Defined.

(** Texts that are JSON but no ledger are not corrupt to [JSON.parse]:
    with [null], an empty object, an array of [null] or an array of an
    empty object in the store, loading gives that value and not an empty
    ledger, writes nothing to the console, and the first render throws
    on it. *)
Lemma load_unchecked_counterexample :
  App.load (λ _, Return (Some "null")) Sample.JSON_parse
    = (App.Foreign JNull, [])
  ∧ App.load (λ _, Return (Some "{}")) Sample.JSON_parse
    = (App.Foreign (JObject []), [])
  ∧ App.load (λ _, Return (Some "[null]")) Sample.JSON_parse
    = (App.Foreign (JArray [JNull]), [])
  ∧ App.load (λ _, Return (Some "[{}]")) Sample.JSON_parse
    = (App.Foreign (JArray [JObject []]), [])
  ∧ Forall (λ v, App.groupedHistory_held Sample.utc Sample.plain
                   (App.Foreign v) = Some (Throw TypeError))
           [JNull; JObject []; JArray [JNull]; JArray [JObject []]].
Proof. split_and!; try done. by repeat constructor. Qed.

(** ** The edit and recompute workflow *)

Section Workflow.

Variable calculatePrice : number → number.

Implicit Types (data : LaundryOrderResult) (st : ResultsView.state)
  (ev : ResultsView.event) (evs : list ResultsView.event).

Local Abbreviation handle := (ResultsView.handle calculatePrice).
Local Abbreviation run := (ResultsView.run calculatePrice).
Local Abbreviation price_for_text := (Spec.price_for_text calculatePrice).

Local Abbreviation priced := (Spec.priced calculatePrice).

(** The effect only writes the price: either way the other fields stay. *)
Ltac recalculate_cases st :=
  unfold ResultsView.recalculate;
  destruct (isNaN (parseFloat (ResultsView.editedWeight st))).

Lemma recalculate_priced st :
  priced (ResultsView.recalculate calculatePrice st).
Proof.
  unfold Spec.priced, ResultsView.recalculate, Spec.price_for_text.
  destruct (isNaN (parseFloat (ResultsView.editedWeight st))) eqn:Hnan;
    simpl; by rewrite Hnan.
Qed.

Lemma recalculate_weight st :
  ResultsView.editedWeight (ResultsView.recalculate calculatePrice st)
  = ResultsView.editedWeight st.
Proof. by recalculate_cases st. Qed.

Lemma recalculate_name st :
  ResultsView.editedName (ResultsView.recalculate calculatePrice st)
  = ResultsView.editedName st.
Proof. by recalculate_cases st. Qed.

Lemma recalculate_address st :
  ResultsView.editedAddress (ResultsView.recalculate calculatePrice st)
  = ResultsView.editedAddress st.
Proof. by recalculate_cases st. Qed.

Lemma handle_priced st ev : priced st → priced (handle st ev).
Proof.
  intros Hst. destruct ev; simpl; try exact Hst.
  case_bool_decide; [exact Hst | apply recalculate_priced].
Qed.

Lemma handle_weight st ev :
  ResultsView.editedWeight (handle st ev)
  = default (ResultsView.editedWeight st) (Spec.weight_written ev).
Proof.
  destruct ev; simpl; try done.
  case_bool_decide; [done | by rewrite recalculate_weight].
Qed.

Lemma handle_name st ev :
  ResultsView.editedName (handle st ev)
  = default (ResultsView.editedName st) (Spec.name_written ev).
Proof.
  destruct ev; simpl; try done.
  case_bool_decide; [done | by rewrite recalculate_name].
Qed.

Lemma handle_address st ev :
  ResultsView.editedAddress (handle st ev)
  = default (ResultsView.editedAddress st) (Spec.address_written ev).
Proof.
  destruct ev; simpl; try done.
  case_bool_decide; [done | by rewrite recalculate_address].
Qed.

Lemma foldl_priced st evs : priced st → priced (foldl handle st evs).
Proof.
  revert st. induction evs as [|ev evs IH]; intros st Hst; [done|].
  simpl. apply IH, handle_priced, Hst.
Qed.

Lemma foldl_latest {A : Type} (field : ResultsView.state → A)
    (written : ResultsView.event → option A) :
  (∀ st ev, field (handle st ev) = default (field st) (written ev)) →
  ∀ evs st, field (foldl handle st evs) = Spec.latest written (field st) evs.
Proof.
  intros Hstep evs. unfold Spec.latest.
  induction evs as [|ev evs IH]; intros st; [done|].
  simpl. by rewrite IH, Hstep.
Qed.

Lemma run_priced data evs : priced (run data evs).
Proof. apply foldl_priced, recalculate_priced. Qed.

Lemma run_weight data evs :
  ResultsView.editedWeight (run data evs)
  = Spec.latest Spec.weight_written
      (weight_toString (laundry_weight_kg data)) evs.
Proof.
  unfold ResultsView.run.
  rewrite (foldl_latest _ _ handle_weight).
  unfold ResultsView.mount. by rewrite recalculate_weight.
Qed.

Lemma run_name data evs :
  ResultsView.editedName (run data evs)
  = Spec.latest Spec.name_written (customer_name data) evs.
Proof.
  unfold ResultsView.run.
  rewrite (foldl_latest _ _ handle_name).
  unfold ResultsView.mount. by rewrite recalculate_name.
Qed.

Lemma run_address data evs :
  ResultsView.editedAddress (run data evs)
  = Spec.latest Spec.address_written (delivery_address data) evs.
Proof.
  unfold ResultsView.run.
  rewrite (foldl_latest _ _ handle_address).
  unfold ResultsView.mount. by rewrite recalculate_address.
Qed.

Lemma run_snoc data evs ev : run data (evs ++ [ev]) = handle (run data evs) ev.
Proof. unfold ResultsView.run. by rewrite foldl_app. Qed.

Lemma latest_snoc {A : Type} (written : ResultsView.event → option A)
    init evs ev :
  Spec.latest written init (evs ++ [ev])
  = default (Spec.latest written init evs) (written ev).
Proof. unfold Spec.latest. by rewrite foldl_app. Qed.

Lemma or_zero_not_NaN (x : number) : isNaN (or_zero x) = false.
Proof. by destruct x. Qed.

Lemma or_zero_NaN (x : number) : isNaN x = true → or_zero x = zero.
Proof. by destruct x. Qed.

(** C5. Whatever the operator did to a draft before confirming, the saved
    record keeps the draft's confidence, timestamp, order number, image
    references and service name, and carries the latest name and address
    texts, the number read from the latest weight text and the price of
    that text. *)
Theorem handleSave_frame data evs :
  let final := ResultsView.handleSave data (run data evs) in
  let text :=
    Spec.latest Spec.weight_written
      (weight_toString (laundry_weight_kg data)) evs in
  extraction_confidence_score final = extraction_confidence_score data
  ∧ timestamp final = timestamp data
  ∧ shopify_order_number final = shopify_order_number data
  ∧ weight_image_src final = weight_image_src data
  ∧ customer_image_src final = customer_image_src data
  ∧ laundry_service_name final = laundry_service_name data
  ∧ laundry_weight_kg final = WNumber (or_zero (parseFloat text))
  ∧ price final = Some (price_for_text text)
  ∧ customer_name final = Spec.latest Spec.name_written (customer_name data) evs
  ∧ delivery_address final
    = Spec.latest Spec.address_written (delivery_address data) evs.
Proof.
  intros final text. subst final text. unfold ResultsView.handleSave. simpl.
  rewrite <- run_weight, <- run_name, <- run_address.
  split_and!; try done.
  f_equal. apply run_priced.
Qed.

(** C6. Each change of the weight text sets the price to the pricing
    function of the number the text parses to, and to exactly zero when the
    text does not parse, whatever the price was before; going on to the text
    12.5 gives the price of the number 12.5. *)
Theorem weight_edit_reprices data evs text :
  let st := run data (evs ++ [ResultsView.SetEditedWeight text]) in
  let back := handle st (ResultsView.SetEditedWeight "12.5") in
  (isNaN (parseFloat text) = false →
     ResultsView.currentPrice st = calculatePrice (parseFloat text))
  ∧ (isNaN (parseFloat text) = true → ResultsView.currentPrice st = zero)
  ∧ ResultsView.currentPrice back
    = calculatePrice (S754_finite false 7036874417766400 (-49))
  ∧ parseFloat "12.5" = S754_finite false 7036874417766400 (-49)
  ∧ SFdiv prec emax (of_Z 25) (of_Z 2)
    = S754_finite false 7036874417766400 (-49).
Proof.
  intros st back.
  assert (Hst : ResultsView.currentPrice st = price_for_text text).
  { subst st. rewrite (run_priced data _), run_weight, latest_snoc. done. }
  assert (Hback : ResultsView.currentPrice back = price_for_text "12.5").
  { subst back. rewrite (handle_priced st _), handle_weight; [done|].
    subst st. apply run_priced. }
  split_and!.
  - intros Hnum. rewrite Hst. unfold Spec.price_for_text. by rewrite Hnum.
  - intros Hnan. rewrite Hst. unfold Spec.price_for_text. by rewrite Hnan.
  - rewrite Hback. by vm_compute.
  - by vm_compute.
  - by vm_compute.
Qed.

(** C10. A record saved by confirming a draft always has a number for its
    weight, never the marker of an unclear weight and never NaN; it is
    exactly zero when the weight text does not parse, as it is for a draft
    that arrived with the marker and whose weight was never edited. *)
Theorem handleSave_weight_numeric data evs :
  let st := run data evs in
  let final := ResultsView.handleSave data st in
  (∃ n, laundry_weight_kg final = WNumber n ∧ isNaN n = false)
  ∧ laundry_weight_kg final ≠ DATA_UNCLEAR
  ∧ (isNaN (parseFloat (ResultsView.editedWeight st)) = true →
       laundry_weight_kg final = WNumber zero)
  ∧ (laundry_weight_kg data = DATA_UNCLEAR →
     Forall (λ ev, Spec.weight_written ev = None) evs →
       laundry_weight_kg final = WNumber zero).
Proof.
  intros st final. subst final. unfold ResultsView.handleSave. simpl.
  split_and!.
  - eexists. split; [done | apply or_zero_not_NaN].
  - done.
  - intros Hnan. by rewrite or_zero_NaN.
  - intros Hdata Hevs. subst st. rewrite run_weight, Hdata. simpl.
    assert (Hkeep : ∀ init,
      Spec.latest Spec.weight_written init evs = init).
    { unfold Spec.latest. induction Hevs as [|ev evs Hev _ IH]; intros init.
      - done.
      - simpl. rewrite Hev. apply IH. }
    rewrite Hkeep. by vm_compute.
Qed.

End Workflow.

Lemma weight_edit_reprices_witness :
  ResultsView.currentPrice
    (ResultsView.run Sample.per_kilo Sample.draft
       ([] ++ [ResultsView.SetEditedWeight "7"]))
  = Sample.per_kilo (parseFloat "7")
  ∧ ResultsView.currentPrice
      (ResultsView.run Sample.per_kilo Sample.draft
         ([] ++ [ResultsView.SetEditedWeight "seven"]))
    = zero.
Proof.
  split.
  - exact (proj1 (weight_edit_reprices Sample.per_kilo Sample.draft [] "7")
                 eq_refl).
  - exact (proj1 (proj2 (weight_edit_reprices
                           Sample.per_kilo Sample.draft [] "seven"))
                 eq_refl).
Defined.

Lemma handleSave_weight_numeric_witness :
  laundry_weight_kg
    (ResultsView.handleSave Sample.draft
       (ResultsView.run Sample.per_kilo Sample.draft
          [ResultsView.SetEditedWeight "seven"]))
  = WNumber zero
  ∧ laundry_weight_kg
      (ResultsView.handleSave Sample.unclear_draft
         (ResultsView.run Sample.per_kilo Sample.unclear_draft
            [ResultsView.SetIsEditingName true;
             ResultsView.SetEditedName "Ana"]))
    = WNumber zero.
Proof.
  split.
  - exact (proj1 (proj2 (proj2 (handleSave_weight_numeric
             Sample.per_kilo Sample.draft
             [ResultsView.SetEditedWeight "seven"]))) eq_refl).
  - apply (proj2 (proj2 (proj2 (handleSave_weight_numeric
             Sample.per_kilo Sample.unclear_draft
             [ResultsView.SetIsEditingName true;
              ResultsView.SetEditedName "Ana"])))).
    + reflexivity.
    + repeat constructor.
Defined.

(** ** CSV export *)

Section Quoting.

Implicit Types (s rest : string) (c : ascii).

Lemma app_String c s rest : String c s +:+ rest = String c (s +:+ rest).
Proof. done. Qed.

Lemma app_empty rest : "" +:+ rest = rest.
Proof. done. Qed.

Lemma app_assoc_string s1 s2 s3 : (s1 +:+ s2) +:+ s3 = s1 +:+ s2 +:+ s3.
Proof.
  induction s1 as [|c s1 IH]; [done|]. by rewrite !app_String, IH.
Qed.

Lemma app_empty_r s : s +:+ "" = s.
Proof. induction s as [|c s IH]; [done|]. by rewrite app_String, IH. Qed.


Lemma flatten_double_quotes s :
  replace_all newline " " (App.double_quotes s)
  = App.double_quotes (replace_all newline " " s).
Proof.
  unfold App.double_quotes. induction s as [|c s IH]; [done|].
  simpl. destruct (Ascii.eqb c dquote) eqn:Hq.
  - apply Ascii.eqb_eq in Hq as ->. simpl.
    rewrite ?app_String, ?app_empty. simpl. by rewrite IH.
  - simpl. destruct (Ascii.eqb c newline) eqn:Hn.
    + rewrite ?app_String, ?app_empty. simpl. by rewrite IH.
    + simpl. by rewrite Hq, IH.
Qed.






End Quoting.

Section Exporting.

Variable toLocaleDateString : Z → string.
Variable toLocaleTimeString : Z → string.

Local Abbreviation values :=
  (App.values toLocaleDateString toLocaleTimeString).
Local Abbreviation csvRows :=
  (App.csvRows toLocaleDateString toLocaleTimeString).
Local Abbreviation exportToCSV :=
  (App.exportToCSV toLocaleDateString toLocaleTimeString).

Lemma decimals_uint (d : Decimal.uint) (t : string) :
  Spec.decimals (NilEmpty.string_of_uint d +:+ t) = Spec.decimals t.
Proof. induction d; simpl; rewrite ?app_String, ?app_empty; done. Qed.

Lemma decimals_Z_toString (z : Z) (t : string) :
  Spec.decimals (Z_toString z +:+ t) = Spec.decimals t.
Proof.
  unfold Z_toString, NilZero.string_of_int, NilZero.string_of_uint.
  destruct (Z.to_int z) as [d|d]; destruct d;
    rewrite ?app_String, ?app_empty; simpl;
    rewrite ?app_String, ?app_empty; simpl; by rewrite ?decimals_uint.
Qed.

Lemma is_digit_digit_char (d : Z) :
  0 ≤ d < 10 → is_digit (digit_char d) = true.
Proof.
  intros Hd.
  assert (d = 0 ∨ d = 1 ∨ d = 2 ∨ d = 3 ∨ d = 4 ∨ d = 5 ∨ d = 6 ∨ d = 7
          ∨ d = 8 ∨ d = 9) as Hcases by lia.
  by repeat destruct Hcases as [-> | Hcases]; subst.
Qed.

Lemma toFixed2_decimals (x : number) :
  Spec.positional x = true → Spec.decimals (toFixed2 x) = Some 2%nat.
Proof.
  destruct x as [s|s| |s m e]; try done.
  unfold Spec.positional, toFixed2.
  destruct (fraction m e) as [num den]. intros Hlt.
  assert ((10 ^ 21 * den <=? num) = false) as -> by lia.
  set (n := (200 * num + den) / (2 * den)).
  destruct s; rewrite ?app_String, ?app_empty; simpl;
    rewrite decimals_Z_toString; rewrite ?app_String, ?app_empty; simpl;
    rewrite !is_digit_digit_char; try done.
  all: try (apply Z.mod_pos_bound; lia).
  all: pose proof (Z.mod_pos_bound n 100); split;
    [apply Z.div_pos | apply Z.div_lt_upper_bound]; lia.
Qed.

(** C7, as the code has it. Nothing is exported from an empty ledger. From
    any other ledger the export is one header row and then one row per
    record, in the ledger's own order, the rows joined by newlines; a row
    is the date, the time, the quoted service, order number, customer name
    and address, the weight as stored and the price, joined by commas. An
    absent price is written 0.00, and a price is written with exactly two
    decimals whenever it is finite and below 10^21 in magnitude. *)
Theorem exportToCSV_rows (history : ledger) :
  (history = [] → exportToCSV history = None)
  ∧ (history ≠ [] →
       exportToCSV history = Some (join (String newline "") (csvRows history)))
  ∧ length (csvRows history) = S (length history)
  ∧ csvRows history !! 0%nat =
      Some ("Date,Time,Laundry Service,Order Number,Customer Name,"
            +:+ "Delivery Address,Weight (kg),Price (EUR)")
  ∧ (∀ (i : nat) row, history !! i = Some row →
       csvRows history !! S i =
         Some (join ","
           [ toLocaleDateString (timestamp row);
             toLocaleTimeString (timestamp row);
             App.quoted (laundry_service_name row);
             App.quoted (shopify_order_number row);
             App.quoted (customer_name row);
             App.quoted_address (delivery_address row);
             weight_toString (laundry_weight_kg row);
             toFixed2 (price_or_zero (price row)) ]))
  ∧ (∀ row s, laundry_weight_kg row = WString s →
       weight_toString (laundry_weight_kg row) = s)
  ∧ (∀ row, price row = None → toFixed2 (price_or_zero (price row)) = "0.00")
  ∧ (∀ row, Spec.positional (price_or_zero (price row)) = true →
       Spec.decimals (toFixed2 (price_or_zero (price row))) = Some 2%nat).
Proof.
  split_and!.
  - by intros ->.
  - intros Hne. unfold App.exportToCSV. by destruct history.
  - unfold App.csvRows. simpl. by rewrite length_map.
  - by vm_compute.
  - intros i row Hi. unfold App.csvRows.
    change (map ?f history) with (f <$> history).
    rewrite lookup_cons, list_lookup_fmap, Hi. done.
  - by intros row s ->.
  - by intros row ->.
  - intros row. apply toFixed2_decimals.
Qed.

End Exporting.

Lemma exportToCSV_rows_witness :
  App.exportToCSV Sample.plain Sample.plain [] = None
  ∧ App.exportToCSV Sample.plain Sample.plain Sample.acme_ledger
    = Some (join (String newline "")
              (App.csvRows Sample.plain Sample.plain Sample.acme_ledger))
  ∧ App.csvRows Sample.plain Sample.plain Sample.acme_ledger !! 2%nat
    = Some (join ","
        [ "1705752000000"; "1705752000000"; App.quoted "Acme";
          App.quoted "1042"; App.quoted "Ana Lima";
          App.quoted_address "Rua Um 1"; "4"; "0.00" ])
  ∧ Spec.decimals (toFixed2 (price_or_zero (price Sample.draft))) = Some 2%nat.
Proof.
  pose proof (exportToCSV_rows Sample.plain Sample.plain []) as Hnone.
  pose proof (exportToCSV_rows Sample.plain Sample.plain Sample.acme_ledger)
    as Hsome.
  split_and!.
  - exact (proj1 Hnone eq_refl).
  - exact (proj1 (proj2 Hsome) ltac:(discriminate)).
  - exact (proj1 (proj2 (proj2 (proj2 (proj2 Hsome))))
                 1%nat (Sample.order "Acme" (WNumber (parseFloat "4.0"))
                                     None Sample.jan20) eq_refl).
  - exact (proj2 (proj2 (proj2 (proj2 (proj2 (proj2 (proj2 Hsome))))))
                 Sample.draft eq_refl).
Defined.

(** C7, as stated, fails: a price that is infinite, or as large as 10^21,
    is not written with two decimals. *)
Lemma exportToCSV_price_counterexample :
  let row :=
    Sample.order "Acme" (WNumber (parseFloat "5")) (Some Infinity)
                 Sample.jan10 in
  let big :=
    Sample.order "Acme" (WNumber (parseFloat "5")) (Some (parseFloat "1e21"))
                 Sample.jan10 in
  toFixed2 (price_or_zero (price row)) = "Infinity"
  ∧ Spec.decimals (toFixed2 (price_or_zero (price row))) ≠ Some 2%nat
  ∧ toFixed2 (price_or_zero (price big)) = "1e+21"
  ∧ Spec.decimals (toFixed2 (price_or_zero (price big))) ≠ Some 2%nat
  ∧ App.exportToCSV Sample.plain Sample.plain [row]
    = Some (join (String newline "")
              [ join "," App.headers;
                join ","
                  [ "1704888000000"; "1704888000000"; App.quoted "Acme";
                    App.quoted "1042"; App.quoted "Ana Lima";
                    App.quoted_address "Rua Um 1"; "5"; "Infinity" ] ])
  ∧ ¬ (∀ history row, history ≠ [] → row ∈ history →
         Spec.decimals (toFixed2 (price_or_zero (price row))) = Some 2%nat).
Proof.
  intros row big. split_and!.
  - by vm_compute.
  - by vm_compute.
  - by vm_compute.
  - by vm_compute.
  - by vm_compute.
  - intros Hall.
    specialize (Hall [row] row ltac:(discriminate) ltac:(by left)).
    by vm_compute in Hall.
Qed.

(** ** Plain objects *)

Section Objects.

Context {A : Type}.
Implicit Types (o : obj A) (k : string) (a : A).

Lemma own_set_eq o k a : own (set o k a) k = Some a.
Proof.
  induction o as [|[k' a'] o IH]; simpl.
  - by rewrite bool_decide_true.
  - case_bool_decide as Hk; simpl.
    + by rewrite bool_decide_true.
    + by rewrite bool_decide_false.
Qed.

Lemma own_set_ne o k k' a : k ≠ k' → own (set o k a) k' = own o k'.
Proof.
  intros Hne. induction o as [|[k0 a0] o IH]; simpl.
  - by rewrite bool_decide_false.
  - case_bool_decide as Hk; simpl.
    + subst k0. by rewrite !bool_decide_false.
    + by rewrite IH.
Qed.

Lemma own_None o k : own o k = None ↔ k ∉ map fst o.
Proof.
  induction o as [|[k' a'] o IH]; simpl.
  - split; [intros _; apply not_elem_of_nil | done].
  - rewrite not_elem_of_cons. case_bool_decide as Hk.
    + split; [done | intros [? _]; congruence].
    + rewrite IH. split; [intros ?; split; congruence | by intros [_ ?]].
Qed.

Lemma own_Some_elem_of o k a : own o k = Some a → (k, a) ∈ o.
Proof.
  induction o as [|[k' a'] o IH]; simpl; [done|].
  case_bool_decide as Hk.
  - intros [= ->]. subst. by left.
  - intros Ha. right. by apply IH.
Qed.

Lemma elem_of_own o k a : NoDup (map fst o) → (k, a) ∈ o → own o k = Some a.
Proof.
  induction o as [|[k' a'] o IH]; simpl; intros Hnd Hin.
  - by apply elem_of_nil in Hin.
  - apply NoDup_cons in Hnd as [Hk' Hnd].
    apply elem_of_cons in Hin as [[= -> ->] | Hin].
    + by rewrite bool_decide_true.
    + case_bool_decide as Hk; [|by apply IH].
      subst k'. exfalso. apply Hk'.
      apply list_elem_of_fmap. by exists (k, a).
Qed.

Lemma set_new o k a : own o k = None → set o k a = o ++ [(k, a)].
Proof.
  induction o as [|[k' a'] o IH]; simpl; [done|].
  case_bool_decide as Hk; [done|]. intros Hnone. by rewrite IH.
Qed.

Lemma set_keys_own o k a :
  is_Some (own o k) → map fst (set o k a) = map fst o.
Proof.
  induction o as [|[k' a'] o IH]; simpl.
  - by intros [? ?].
  - case_bool_decide as Hk; simpl; [done|]. intros Hs. by rewrite IH.
Qed.

Lemma set_set o k a a' : set (set o k a) k a' = set o k a'.
Proof.
  induction o as [|[k' a0] o IH]; simpl.
  - by rewrite bool_decide_true.
  - case_bool_decide as Hk; simpl.
    + by rewrite bool_decide_true.
    + by rewrite bool_decide_false, IH.
Qed.

Lemma set_NoDup o k a : NoDup (map fst o) → NoDup (map fst (set o k a)).
Proof.
  intros Hnd. destruct (own o k) as [a0|] eqn:Hown.
  - by rewrite set_keys_own.
  - rewrite set_new, map_app by done. simpl.
    apply NoDup_app. split_and!; [done| |apply NoDup_singleton].
    intros k' Hk' ->%list_elem_of_singleton. by apply own_None in Hown.
Qed.

Lemma set_bind_own {R : Type} (f : A → list R) o k a a' extra :
  own o k = Some a → f a' ≡ₚ f a ++ extra →
  (set o k a' ≫= λ p, f p.2) ≡ₚ (o ≫= λ p, f p.2) ++ extra.
Proof.
  intros Hown Hf. induction o as [|[k' a0] o IH]; simpl in *; [done|].
  case_bool_decide as Hk.
  - injection Hown as ->. simpl. rewrite Hf.
    rewrite <- !(assoc (++)). f_equiv. apply Permutation_app_comm.
  - simpl. rewrite IH by done. by rewrite (assoc (++)).
Qed.

Lemma set_bind_new {R : Type} (f : A → list R) o k a :
  own o k = None →
  (set o k a ≫= λ p, f p.2) = (o ≫= λ p, f p.2) ++ f a.
Proof.
  intros Hown. rewrite set_new by done.
  rewrite bind_app. simpl. by rewrite (right_id [] (++)).
Qed.

Lemma get_own o k a : own o k = Some a → get o k = Own a.
Proof. unfold get. by intros ->. Qed.

Lemma get_undefined o k :
  own o k = None → k ∉ prototype_keys → get o k = Undefined.
Proof. unfold get. intros -> Hk. by rewrite bool_decide_false. Qed.

Lemma get_inherited o k :
  own o k = None → k ∈ prototype_keys → get o k = Inherited.
Proof. unfold get. intros -> Hk. by rewrite bool_decide_true. Qed.

Lemma Object_entries_Permutation o : Object_entries o ≡ₚ o.
Proof.
  unfold Object_entries. rewrite merge_sort_Permutation.
  induction o as [|p o IH]; [done|].
  rewrite filter_cons. simpl. unfold indexed at 1.
  destruct (array_index p.1) as [i|] eqn:Hi.
  - rewrite decide_False by done. simpl. by rewrite IH.
  - rewrite decide_True by done. rewrite <- Permutation_middle. by rewrite IH.
Qed.

Lemma Object_keys_Permutation o : Object_keys o ≡ₚ map fst o.
Proof. unfold Object_keys. by rewrite Object_entries_Permutation. Qed.

Lemma Object_values_Permutation o : Object_values o ≡ₚ map snd o.
Proof. unfold Object_values. by rewrite Object_entries_Permutation. Qed.

End Objects.

(** ** Aggregation *)

Section Aggregation.

Variable LocalTZA : Z → Z.
Variable toLocaleMonthYear : Z → string.

Local Abbreviation sortKey := (App.sortKey LocalTZA).
Local Abbreviation group_step := (App.group_step LocalTZA toLocaleMonthYear).
Local Abbreviation groupedHistory :=
  (App.groupedHistory LocalTZA toLocaleMonthYear).
Local Abbreviation group := (App.group LocalTZA toLocaleMonthYear).
Local Abbreviation serviceKey := App.normalizedServiceKey.
Local Abbreviation month_of := (Spec.month_of LocalTZA toLocaleMonthYear).
Local Abbreviation stepped := (Spec.stepped LocalTZA toLocaleMonthYear).
Local Abbreviation grouping := (Spec.grouping LocalTZA).

Implicit Types (acc grouped : obj App.MonthGroup) (curr r : LaundryOrderResult)
  (history : ledger) (k n : string).

(** The records of a ledger that belong to a month key and a service key,
    in the ledger's order. *)
Local Abbreviation belonging k n :=
  (filter (λ r, sortKey (timestamp r) = k ∧ serviceKey r = n)).

Lemma elem_of_app_String (c : ascii) (s1 s2 : string) :
  c ∈ list_ascii_of_string (s1 +:+ String c s2).
Proof.
  induction s1 as [|d s1 IH]; rewrite ?app_String, ?app_empty; simpl.
  - by left.
  - by right.
Qed.

Lemma sortKey_has_dash t : "-"%char ∈ list_ascii_of_string (sortKey t).
Proof.
  unfold App.sortKey. destruct (valid_time t).
  - apply elem_of_app_String.
  - apply (elem_of_app_String _ "NaN" "NaN").
Qed.

Lemma sortKey_not_inherited t : sortKey t ∉ prototype_keys.
Proof.
  intros Hin. pose proof (sortKey_has_dash t) as Hdash.
  assert (Forall (λ k, "-"%char ∉ list_ascii_of_string k) prototype_keys)
    as Hnone by (apply (bool_decide_unpack _); by vm_compute).
  rewrite Forall_forall in Hnone. by apply (Hnone _ Hin).
Qed.

(** A step throws exactly when the service key is a name inherited from
    [Object.prototype] and no group was made for it. *)
Lemma group_step_eq acc curr :
  group_step acc curr =
  if bool_decide (own (App.services (month_of acc curr)) (serviceKey curr)
                  = None
                  ∧ serviceKey curr ∈ prototype_keys)
  then Throw TypeError
  else Return (stepped acc curr).
Proof.
  unfold App.group_step, Spec.stepped, Spec.month_of,
    App.normalizedServiceKey.
  set (key := sortKey (timestamp curr)).
  set (name := toLowerCase (trim (laundry_service_name curr))).
  pose proof (sortKey_not_inherited (timestamp curr)) as Hkey. fold key in Hkey.
  destruct (own acc key) as [month|] eqn:Hacc; simpl.
  - rewrite (get_own _ _ _ Hacc). simpl. rewrite (get_own _ _ _ Hacc).
    destruct (own (App.services month) name) as [g|] eqn:Hg; simpl.
    + rewrite (get_own _ _ _ Hg). simpl. by rewrite (get_own _ _ _ Hg).
    + case_bool_decide as Hname.
      * destruct Hname as [_ Hname].
        rewrite (get_inherited _ _ Hg Hname). simpl.
        by rewrite (get_inherited _ _ Hg Hname).
      * assert (name ∉ prototype_keys) as Hplain by (intros ?; by apply Hname).
        rewrite (get_undefined _ _ Hg Hplain). simpl.
        rewrite (get_own _ _ _ (own_set_eq _ _ _)).
        by rewrite set_set.
  - rewrite (get_undefined _ _ Hacc Hkey). simpl.
    rewrite (get_own _ _ _ (own_set_eq _ _ _)). simpl.
    case_bool_decide as Hname.
    + destruct Hname as [_ Hname].
      rewrite (get_inherited [] name eq_refl Hname). simpl.
      by rewrite (get_inherited [] name eq_refl Hname).
    + assert (name ∉ prototype_keys) as Hplain by (intros ?; by apply Hname).
      rewrite (get_undefined [] name eq_refl Hplain). simpl.
      rewrite (get_own [_] name _ (own_set_eq [] _ _)). simpl.
      by rewrite set_set, bool_decide_true.
Qed.

Lemma grouping_empty : grouping [] [].
Proof.
  split_and!; [apply NoDup_nil_2 | done | done | done].
Qed.

Lemma joined_records found curr :
  App.records (Spec.joined found curr)
  = default [] (App.records <$> found) ++ [curr].
Proof. done. Qed.

Lemma joined_named found curr :
  (∀ g, found = Some g → Spec.named_by_first g) →
  Spec.named_by_first (Spec.joined found curr).
Proof.
  intros Hfound. destruct found as [g|]; simpl.
  - destruct (Hfound g eq_refl) as (first & rest & Hrec & Hname).
    exists first, (rest ++ [curr]). simpl. by rewrite Hrec.
  - by exists curr, [].
Qed.

(** The month a record goes to, as the invariant sees it. *)
Lemma month_of_grouping history acc curr :
  grouping history acc →
  let month := month_of acc curr in
  let key := sortKey (timestamp curr) in
  NoDup (map fst (App.services month))
  ∧ (∀ n g, own (App.services month) n = Some g →
       (n ∉ prototype_keys) ∧ Spec.named_by_first g)
  ∧ (∀ n, default [] (App.records <$> own (App.services month) n)
          = belonging key n history).
Proof.
  intros (Hkeys & Hmonths & Hat & Hperm) month key.
  subst month. unfold Spec.month_of. fold key.
  destruct (own acc key) as [m|] eqn:Hm; simpl.
  - destruct (Hmonths key m Hm) as [Hnd Hgroups]. split_and!; try done.
    intros n. rewrite <- Hat. unfold Spec.records_at. rewrite Hm.
    by destruct (own (App.services m) n).
  - split_and!; [apply NoDup_nil_2 | done |].
    intros n. rewrite <- Hat. unfold Spec.records_at. by rewrite Hm.
Qed.

Lemma month_records_stepped acc curr :
  let month := month_of acc curr in
  let name := serviceKey curr in
  Spec.month_records
    {| App.label := App.label month;
       App.services :=
         set (App.services month) name
             (Spec.joined (own (App.services month) name) curr) |}
  ≡ₚ Spec.month_records month ++ [curr].
Proof.
  intros month name. unfold Spec.month_records. simpl.
  destruct (own (App.services month) name) as [g|] eqn:Hg.
  - by apply (set_bind_own App.records _ _ g).
  - by rewrite (set_bind_new App.records).
Qed.

Lemma grouped_records_stepped acc curr :
  Spec.grouped_records (stepped acc curr)
  ≡ₚ Spec.grouped_records acc ++ [curr].
Proof.
  unfold Spec.grouped_records, Spec.stepped.
  pose proof (month_records_stepped acc curr) as Hmonth. simpl in Hmonth.
  destruct (own acc (sortKey (timestamp curr))) as [m|] eqn:Hm.
  - apply (set_bind_own Spec.month_records _ _ m); [done|].
    revert Hmonth. unfold Spec.month_of. by rewrite Hm.
  - rewrite (set_bind_new Spec.month_records) by done.
    rewrite Hmonth. unfold Spec.month_of. by rewrite Hm.
Qed.

(** One step keeps the invariant. *)
Lemma grouping_stepped history acc curr :
  grouping history acc →
  ¬ (own (App.services (month_of acc curr)) (serviceKey curr) = None
     ∧ serviceKey curr ∈ prototype_keys) →
  grouping (history ++ [curr]) (stepped acc curr).
Proof.
  intros Hinv Hplain.
  destruct (month_of_grouping history acc curr Hinv)
    as (Hnd & Hgroups & Hheld).
  destruct Hinv as (Hkeys & Hmonths & Hat & Hperm).
  set (key := sortKey (timestamp curr)) in *.
  set (name := serviceKey curr) in *.
  set (month := month_of acc curr) in *.
  split_and!.
  - by apply set_NoDup.
  - intros k m. unfold Spec.stepped. fold key name month.
    destruct (decide (key = k)) as [<- | Hk].
    + rewrite own_set_eq. intros [= <-]. simpl. split.
      * by apply set_NoDup.
      * intros n g. destruct (decide (name = n)) as [<- | Hn].
        -- rewrite own_set_eq. intros [= <-]. split.
           ++ destruct (own (App.services month) name) as [g0|] eqn:Hg0.
              ** by apply (Hgroups name g0).
              ** intros Hin. by apply Hplain.
           ++ apply joined_named. intros g0 Hg0. by apply (Hgroups name g0).
        -- rewrite own_set_ne by done. apply Hgroups.
    + rewrite own_set_ne by done. apply Hmonths.
  - intros k n. rewrite filter_app, <- Hat.
    unfold Spec.records_at at 1, Spec.stepped. fold key name month.
    destruct (decide (key = k)) as [<- | Hk].
    + rewrite own_set_eq. simpl.
      destruct (decide (name = n)) as [<- | Hn].
      * rewrite own_set_eq, joined_records, Hheld, Hat.
        f_equal. by rewrite filter_cons, decide_True.
      * rewrite own_set_ne by done.
        rewrite filter_cons, decide_False by (by intros [_ ?]).
        rewrite filter_nil, (right_id [] (++)), Hat, <- Hheld.
        by destruct (own (App.services month) n).
    + rewrite own_set_ne by done.
      rewrite filter_cons, decide_False by (by intros [? _]).
      by rewrite filter_nil, (right_id [] (++)).
  - rewrite grouped_records_stepped. by rewrite Hperm.
Qed.

Lemma reduce_grouping history : ∀ seen acc grouped,
  grouping seen acc →
  App.reduce group_step history acc = Return grouped →
  grouping (seen ++ history) grouped.
Proof.
  induction history as [|curr history IH]; intros seen acc grouped Hinv.
  - simpl. intros [= <-]. by rewrite (right_id [] (++)).
  - simpl. rewrite group_step_eq. case_bool_decide as Hthrow; [done|].
    simpl. intros Hred.
    rewrite (cons_middle curr), (assoc (++)).
    apply (IH _ (stepped acc curr)); [|done].
    by apply grouping_stepped.
Qed.

Lemma reduce_plain history : ∀ acc,
  Forall Spec.plain_service history →
  ∃ grouped, App.reduce group_step history acc = Return grouped.
Proof.
  induction history as [|curr history IH]; intros acc Hplain.
  - by eexists.
  - apply Forall_cons in Hplain as [Hcurr Hplain].
    simpl. rewrite group_step_eq.
    rewrite bool_decide_false by (by intros [_ ?]).
    simpl. apply IH, Hplain.
Qed.

Lemma reduce_inherited history : ∀ seen acc,
  grouping seen acc →
  Exists (λ r, ¬ Spec.plain_service r) history →
  App.reduce group_step history acc = Throw TypeError.
Proof.
  induction history as [|curr history IH]; intros seen acc Hinv Hex.
  - by apply Exists_nil in Hex.
  - simpl. rewrite group_step_eq. case_bool_decide as Hthrow; [done|].
    simpl. apply Exists_cons in Hex as [Hcurr | Hex].
    + exfalso. apply Hthrow.
      assert (serviceKey curr ∈ prototype_keys) as Hin.
      { unfold Spec.plain_service in Hcurr.
        by destruct (decide (serviceKey curr ∈ prototype_keys)). }
      split; [|done].
      destruct (month_of_grouping seen acc curr Hinv) as (_ & Hgroups & _).
      destruct (own _ (serviceKey curr)) as [g|] eqn:Hg; [|done].
      by destruct (Hgroups _ g Hg).
    + apply (IH (seen ++ [curr])); [|done].
      by apply grouping_stepped.
Qed.

Lemma sections_eq grouped keys :
  Forall (λ k, is_Some (own grouped k)) keys →
  ∃ secs, App.sections grouped keys = Return secs
          ∧ Spec.sections_of grouped keys secs.
Proof.
  induction 1 as [|k keys [m Hm] _ (secs & Hsecs & Hall)]; simpl.
  - exists []. split; [done | constructor].
  - unfold App.month_section, get. rewrite Hm. simpl. rewrite Hsecs. simpl.
    eexists. split; [done|]. constructor; [|done]. by exists m.
Qed.

Lemma sections_of_keys grouped keys secs :
  Spec.sections_of grouped keys secs → map App.monthKey secs = keys.
Proof.
  induction 1 as [|k sec keys secs (m & _ & ->) _ IH]; [done|].
  simpl. by rewrite IH.
Qed.

Lemma sortedMonthKeys_Permutation grouped :
  App.sortedMonthKeys grouped ≡ₚ map fst grouped.
Proof.
  unfold App.sortedMonthKeys, sort.
  by rewrite reverse_Permutation, merge_sort_Permutation,
    Object_keys_Permutation.
Qed.

(** What the rendering is made of. *)
Lemma group_grouping history secs :
  group history = Return secs →
  ∃ grouped,
    grouping history grouped
    ∧ Spec.sections_of grouped (App.sortedMonthKeys grouped) secs.
Proof.
  unfold App.group, App.groupedHistory.
  destruct (App.reduce group_step history []) as [grouped|e] eqn:Hred;
    [|done].
  simpl. intros Hsecs. exists grouped.
  pose proof (reduce_grouping history [] [] grouped grouping_empty Hred)
    as Hinv.
  split; [done|].
  destruct (sections_eq grouped (App.sortedMonthKeys grouped))
    as (secs' & Hsecs' & Hall).
  - apply Forall_forall. intros k Hk.
    rewrite sortedMonthKeys_Permutation in Hk.
    destruct (own grouped k) as [m|] eqn:Hm; [by eexists|].
    by apply own_None in Hm.
  - rewrite Hsecs' in Hsecs. by injection Hsecs as <-.
Qed.

Lemma group_plain history :
  Forall Spec.plain_service history → ∃ secs, group history = Return secs.
Proof.
  intros Hplain. unfold App.group, App.groupedHistory.
  destruct (reduce_plain history [] Hplain) as [grouped Hred].
  rewrite Hred. simpl.
  pose proof (reduce_grouping history [] [] grouped grouping_empty Hred)
    as Hinv.
  destruct (sections_eq grouped (App.sortedMonthKeys grouped))
    as (secs & Hsecs & _); [|by exists secs].
  apply Forall_forall. intros k Hk.
  rewrite sortedMonthKeys_Permutation in Hk.
  destruct (own grouped k) as [m|] eqn:Hm; [by eexists|].
  by apply own_None in Hm.
Qed.

Lemma group_inherited history :
  Exists (λ r, ¬ Spec.plain_service r) history →
  group history = Throw TypeError.
Proof.
  intros Hex. unfold App.group, App.groupedHistory.
  by rewrite (reduce_inherited history [] [] grouping_empty Hex).
Qed.

Lemma StronglySorted_strict (keys : list string) :
  StronglySorted String.le keys → NoDup keys →
  StronglySorted (strict String.le) keys.
Proof.
  induction 1 as [|k keys Hsorted IH Hle]; intros Hnd; [constructor|].
  apply NoDup_cons in Hnd as [Hk Hnd]. constructor; [by apply IH|].
  rewrite Forall_forall in Hle |- *. intros k' Hk'.
  apply strict_spec_alt. split; [by apply Hle | by intros ->].
Qed.

Lemma StronglySorted_reverse {B : Type} (R : relation B) (l : list B) :
  StronglySorted R l → StronglySorted (flip R) (reverse l).
Proof.
  induction 1 as [|x l Hsorted IH Hx]; [constructor|].
  rewrite reverse_cons. apply StronglySorted_app_2; [|done|].
  - intros x1 x2 Hx1 ->%list_elem_of_singleton.
    rewrite elem_of_reverse in Hx1. rewrite Forall_forall in Hx.
    unfold flip. by apply Hx.
  - repeat constructor.
Qed.

Lemma sortedMonthKeys_descending grouped :
  NoDup (map fst grouped) → Spec.descending (App.sortedMonthKeys grouped).
Proof.
  intros Hnd. unfold Spec.descending, App.sortedMonthKeys, sort.
  apply (StronglySorted_reverse (strict String.le)).
  apply StronglySorted_strict.
  - apply (StronglySorted_merge_sort String.le).
  - by rewrite merge_sort_Permutation, Object_keys_Permutation.
Qed.

Lemma section_records_of k m :
  Spec.section_records (Spec.section_of k m) ≡ₚ Spec.month_records m.
Proof.
  unfold Spec.section_records, Spec.section_of, Spec.month_records. simpl.
  change (map ?f ?l) with (f <$> l). rewrite list_fmap_bind.
  rewrite Object_values_Permutation.
  change (map snd ?l) with (snd <$> l). by rewrite list_fmap_bind.
Qed.

Lemma shown_records_sections grouped keys secs :
  Spec.sections_of grouped keys secs →
  Spec.shown_records secs
  ≡ₚ keys ≫= λ k, default [] (Spec.month_records <$> own grouped k).
Proof.
  unfold Spec.shown_records.
  induction 1 as [|k sec keys secs (m & Hm & ->) _ IH]; [done|].
  rewrite !bind_cons, IH, Hm. simpl. by rewrite section_records_of.
Qed.

Lemma grouped_records_keys grouped :
  NoDup (map fst grouped) →
  Spec.grouped_records grouped
  = map fst grouped ≫= λ k, default [] (Spec.month_records <$> own grouped k).
Proof.
  intros Hnd. unfold Spec.grouped_records.
  change (map fst grouped) with (fst <$> grouped). rewrite list_fmap_bind.
  apply Forall_bind_ext, Forall_forall. intros [k m] Hin. simpl.
  by rewrite (elem_of_own grouped k m Hnd Hin).
Qed.

Lemma shown_records_grouped history grouped secs :
  grouping history grouped →
  Spec.sections_of grouped (App.sortedMonthKeys grouped) secs →
  Spec.shown_records secs ≡ₚ history.
Proof.
  intros (Hnd & _ & _ & Hperm) Hsecs.
  rewrite (shown_records_sections _ _ _ Hsecs).
  rewrite sortedMonthKeys_Permutation.
  by rewrite <- grouped_records_keys.
Qed.

(** The cards of a month are its service groups. *)
Lemma elem_of_cards history grouped k m card :
  grouping history grouped → own grouped k = Some m →
  card ∈ App.cards (Spec.section_of k m) ↔
  ∃ n g, own (App.services m) n = Some g ∧ card = App.service_card g.
Proof.
  intros (_ & Hmonths & _) Hm. destruct (Hmonths k m Hm) as [Hnd _].
  unfold Spec.section_of. simpl.
  change (map ?f ?l) with (f <$> l). rewrite list_elem_of_fmap.
  split.
  - intros (g & -> & Hg). rewrite Object_values_Permutation in Hg.
    apply list_elem_of_fmap in Hg as ([n g'] & -> & Hin).
    exists n, g'. split; [by apply elem_of_own | done].
  - intros (n & g & Hg & ->). exists g. split; [done|].
    rewrite Object_values_Permutation.
    apply list_elem_of_fmap. exists (n, g).
    split; [done | by apply own_Some_elem_of].
Qed.

Lemma elem_of_sections grouped keys secs sec :
  Spec.sections_of grouped keys secs → sec ∈ secs →
  ∃ k m, k ∈ keys ∧ own grouped k = Some m ∧ sec = Spec.section_of k m.
Proof.
  induction 1 as [|k sec' keys secs (m & Hm & ->) _ IH]; intros Hin.
  - by apply elem_of_nil in Hin.
  - apply elem_of_cons in Hin as [-> | Hin].
    + exists k, m. split; [by left | done].
    + destruct (IH Hin) as (k' & m' & Hk' & Hm' & ->).
      exists k', m'. split; [by right | done].
Qed.

Lemma sections_of_elem grouped keys secs k :
  Spec.sections_of grouped keys secs → k ∈ keys →
  ∃ m, own grouped k = Some m ∧ Spec.section_of k m ∈ secs.
Proof.
  induction 1 as [|k' sec keys secs (m & Hm & ->) _ IH]; intros Hin.
  - by apply elem_of_nil in Hin.
  - apply elem_of_cons in Hin as [-> | Hin].
    + exists m. split; [done | by left].
    + destruct (IH Hin) as (m' & Hm' & Hsec).
      exists m'. split; [done | by right].
Qed.

(** Every card shown is the service group of a month key and a service
    key, made of the records with these keys in the ledger's order. *)
Lemma shown_card history secs sec card :
  group history = Return secs → sec ∈ secs → card ∈ App.cards sec →
  ∃ n g,
    card = App.service_card g
    ∧ Spec.named_by_first g
    ∧ App.records g = belonging (App.monthKey sec) n history.
Proof.
  intros Hgroup Hsec Hcard.
  destruct (group_grouping history secs Hgroup) as (grouped & Hinv & Hsecs).
  destruct (elem_of_sections _ _ _ _ Hsecs Hsec) as (k & m & _ & Hm & ->).
  apply (elem_of_cards history grouped k m card Hinv Hm) in Hcard
    as (n & g & Hg & ->).
  destruct Hinv as (_ & Hmonths & Hat & _).
  destruct (Hmonths k m Hm) as [_ Hgroups].
  destruct (Hgroups n g Hg) as [_ Hnamed].
  exists n, g. split_and!; try done.
  simpl. rewrite <- Hat. unfold Spec.records_at. by rewrite Hm, Hg.
Qed.

(** Every record of the ledger is shown on the card of its month key and
    its service key. *)
Lemma shown_record history secs r :
  group history = Return secs → r ∈ history →
  ∃ sec g,
    sec ∈ secs
    ∧ App.service_card g ∈ App.cards sec
    ∧ App.monthKey sec = sortKey (timestamp r)
    ∧ Spec.named_by_first g
    ∧ App.records g
      = belonging (sortKey (timestamp r)) (serviceKey r) history.
Proof.
  intros Hgroup Hr.
  destruct (group_grouping history secs Hgroup) as (grouped & Hinv & Hsecs).
  pose proof Hinv as (Hnd & Hmonths & Hat & _).
  set (k := sortKey (timestamp r)). set (n := serviceKey r).
  assert (r ∈ Spec.records_at grouped k n) as Hheld.
  { rewrite Hat. by apply list_elem_of_filter. }
  unfold Spec.records_at in Hheld.
  destruct (own grouped k) as [m|] eqn:Hm; [|by apply elem_of_nil in Hheld].
  destruct (own (App.services m) n) as [g|] eqn:Hg;
    [|by apply elem_of_nil in Hheld].
  destruct (sections_of_elem _ _ _ k Hsecs) as (m' & Hm' & Hsec).
  { rewrite sortedMonthKeys_Permutation.
    apply list_elem_of_fmap. exists (k, m).
    split; [done | by apply own_Some_elem_of]. }
  assert (m' = m) as -> by congruence.
  exists (Spec.section_of k m), g. split_and!; try done.
  - apply (elem_of_cards history grouped k m _ Hinv Hm). by exists n, g.
  - destruct (Hmonths k m Hm) as [_ Hgroups]. by destruct (Hgroups n g Hg).
  - rewrite <- Hat. unfold Spec.records_at. by rewrite Hm, Hg.
Qed.

(** Two records with the same keys are on one card, and on no other. *)
Lemma shown_together history secs r1 r2 :
  group history = Return secs → r1 ∈ history → r2 ∈ history →
  sortKey (timestamp r1) = sortKey (timestamp r2) →
  serviceKey r1 = serviceKey r2 →
  ∃ sec card first rest,
    sec ∈ secs ∧ card ∈ App.cards sec
    ∧ r1 ∈ App.card_records card ∧ r2 ∈ App.card_records card
    ∧ App.card_records card
      = belonging (sortKey (timestamp r1)) (serviceKey r1) history
    ∧ App.card_records card = first :: rest
    ∧ App.card_name card = trim (laundry_service_name first)
    ∧ (∀ sec' card', sec' ∈ secs → card' ∈ App.cards sec' →
         r1 ∈ App.card_records card' → card' = card).
Proof.
  intros Hgroup Hr1 Hr2 Hk Hn.
  destruct (shown_record history secs r1 Hgroup Hr1)
    as (sec & g & Hsec & Hcard & Hkey & (first & rest & Hrec & Hname) & Hheld).
  exists sec, (App.service_card g), first, rest. simpl.
  split_and!; try done.
  - rewrite Hheld. by apply list_elem_of_filter.
  - rewrite Hheld. apply list_elem_of_filter. by rewrite Hk, Hn.
  - intros sec' card' Hsec' Hcard' Hin.
    destruct (shown_card history secs sec' card' Hgroup Hsec' Hcard')
      as (n' & g' & -> & (first' & rest' & Hrec' & Hname') & Hheld').
    simpl in Hin. rewrite Hheld' in Hin.
    apply list_elem_of_filter in Hin as [[Hk' Hn'] _].
    assert (App.records g' = App.records g) as Hsame.
    { by rewrite Hheld, Hheld', Hk', Hn'. }
    assert (first' = first) as -> by congruence.
    destruct g as [d l], g' as [d' l']. simpl in *. congruence.
Qed.

End Aggregation.

(** ** Totals *)

Section Totals.

Implicit Types (x y s : number).

Lemma add_same s s' x x' :
  Spec.same_number s s' → Spec.same_number x x' →
  Spec.same_number (add s x) (add s' x').
Proof.
  unfold Spec.same_number.
  intros [-> | [Hs Hs']] [-> | [Hx Hx']]; [by left | | |].
  - destruct x as [[]| | |]; try done; destruct x' as [[]| | |]; try done;
      destruct s' as [[]|[]| |[] m e]; simpl; auto.
  - destruct s as [[]| | |]; try done; destruct s' as [[]| | |]; try done;
      destruct x' as [[]|[]| |[] m e]; simpl; auto.
  - destruct s as [[]| | |]; try done; destruct s' as [[]| | |]; try done;
      destruct x as [[]| | |]; try done; destruct x' as [[]| | |]; try done;
      simpl; auto.
Qed.

Lemma or_zero_same x :
  Spec.same_number (or_zero x) (if isNaN x then zero else x).
Proof.
  destruct x as [[]|[]| |[] m e]; simpl; first [by left | by right].
Qed.

Lemma weight_addend_same (w : weight) :
  Spec.same_number (or_zero (Number w)) (Spec.weight_addend w).
Proof. apply or_zero_same. Qed.

Lemma price_addend_same (p : option number) :
  Spec.same_number (price_or_zero p) (Spec.price_addend p).
Proof. destruct p as [x|]; [apply or_zero_same | by left]. Qed.

Lemma foldl_add_same {B : Type} (f g : B → number) (l : list B) :
  (∀ r, Spec.same_number (f r) (g r)) →
  ∀ s s', Spec.same_number s s' →
  Spec.same_number (foldl (λ sum r, add sum (f r)) s l)
                   (foldl add s' (map g l)).
Proof.
  intros Hfg. induction l as [|r l IH]; intros s s' Hs; [done|].
  simpl. apply IH. by apply add_same.
Qed.

Lemma totalWeight_sum (records : list LaundryOrderResult) :
  Spec.same_number
    (App.totalWeight records)
    (Spec.sum (map (λ r, Spec.weight_addend (laundry_weight_kg r)) records)).
Proof.
  unfold App.totalWeight, Spec.sum.
  apply (foldl_add_same (λ r, or_zero (Number (laundry_weight_kg r)))).
  - intros r. apply weight_addend_same.
  - by left.
Qed.

Lemma totalPrice_sum (records : list LaundryOrderResult) :
  Spec.same_number
    (App.totalPrice records)
    (Spec.sum (map (λ r, Spec.price_addend (price r)) records)).
Proof.
  unfold App.totalPrice, Spec.sum.
  apply (foldl_add_same (λ r, price_or_zero (price r))).
  - intros r. apply price_addend_same.
  - by left.
Qed.

End Totals.

(** ** The aggregation as a whole *)

(** C1. The aggregation does not produce a result for every ledger: a
    record whose service name, trimmed and in lower case, is a name that
    plain objects inherit (such as constructor) makes it throw. For every
    other ledger it produces month sections whose keys are strictly
    descending and whose cards together hold exactly the records of the
    ledger, each as often as the ledger has it. *)
Theorem group_throws_on_inherited_name :
  App.group Sample.utc Sample.plain Sample.inherited_ledger = Throw TypeError
  ∧ (∀ LocalTZA toLocaleMonthYear history,
       Exists (λ r, ¬ Spec.plain_service r) history →
       App.group LocalTZA toLocaleMonthYear history = Throw TypeError)
  ∧ (∀ LocalTZA toLocaleMonthYear history,
       Forall Spec.plain_service history →
       ∃ secs, App.group LocalTZA toLocaleMonthYear history = Return secs)
  ∧ (∀ LocalTZA toLocaleMonthYear history secs,
       App.group LocalTZA toLocaleMonthYear history = Return secs →
       Spec.descending (map App.monthKey secs)
       ∧ Spec.shown_records secs ≡ₚ history).
Proof.
  split_and!.
  - by vm_compute.
  - apply group_inherited.
  - apply group_plain.
  - intros LocalTZA toLocaleMonthYear history secs Hgroup.
    destruct (group_grouping _ _ _ _ Hgroup) as (grouped & Hinv & Hsecs).
    split.
    + rewrite (sections_of_keys _ _ _ Hsecs).
      apply sortedMonthKeys_descending. by destruct Hinv.
    + by apply (shown_records_grouped LocalTZA history grouped).
Qed.

Lemma group_throws_on_inherited_name_witness :
  App.group Sample.utc Sample.plain Sample.inherited_ledger = Throw TypeError
  ∧ ∃ secs,
      App.group Sample.utc Sample.plain Sample.acme_ledger = Return secs
      ∧ Spec.descending (map App.monthKey secs)
      ∧ Spec.shown_records secs ≡ₚ Sample.acme_ledger.
Proof.
  destruct group_throws_on_inherited_name
    as (_ & Hthrows & Hreturns & Hsound).
  split.
  - apply Hthrows. apply Exists_cons_hd. intros Hplain. apply Hplain.
    apply (bool_decide_unpack _). vm_compute. exact I.
  - destruct (Hreturns Sample.utc Sample.plain Sample.acme_ledger)
      as [secs Hsecs].
    + repeat constructor; apply (bool_decide_unpack _); vm_compute; exact I.
    + exists secs. split; [exact Hsecs|].
      exact (Hsound Sample.utc Sample.plain Sample.acme_ledger secs Hsecs).
Defined.

(** C2. On every card the aggregation shows, the total weight is the sum of
    the weights of the card's records and the total price the sum of their
    prices, but for the sign of a zero total; a weight that is not a number,
    as the marker of an unclear weight, adds exactly zero, and so does an
    absent price. The ledger of two January 2024 records of Acme weighing 3
    and 4 and one February 2024 record weighing 5 gives two months, and
    January's Acme card has total weight 7. *)
Theorem card_totals LocalTZA toLocaleMonthYear history secs sec card :
  App.group LocalTZA toLocaleMonthYear history = Return secs →
  sec ∈ secs → card ∈ App.cards sec →
  Spec.same_number
    (App.card_weight card)
    (Spec.sum (map (λ r, Spec.weight_addend (laundry_weight_kg r))
                   (App.card_records card)))
  ∧ Spec.same_number
      (App.card_price card)
      (Spec.sum (map (λ r, Spec.price_addend (price r))
                     (App.card_records card)))
  ∧ Spec.weight_addend DATA_UNCLEAR = zero
  ∧ (∀ w, isNaN (Number w) = true → Spec.weight_addend w = zero)
  ∧ (∀ x, isNaN x = false → Spec.weight_addend (WNumber x) = x)
  ∧ Spec.price_addend None = zero
  ∧ (∀ x, isNaN x = false → Spec.price_addend (Some x) = x)
  ∧ ∃ feb jan acme,
      App.group Sample.utc toLocaleMonthYear Sample.acme_ledger
      = Return [feb; jan]
      ∧ App.monthKey feb = "2024-02"
      ∧ App.monthKey jan = "2024-01"
      ∧ App.cards jan = [acme]
      ∧ App.card_name acme = "Acme"
      ∧ map laundry_weight_kg (App.card_records acme)
        = [WNumber (parseFloat "4.0"); WNumber (parseFloat "3.0")]
      ∧ App.card_weight acme = parseFloat "7.0".
Proof.
  intros Hgroup Hsec Hcard.
  destruct (shown_card _ _ _ _ _ _ Hgroup Hsec Hcard) as (n & g & -> & _).
  split_and!.
  - apply totalWeight_sum.
  - apply totalPrice_sum.
  - by vm_compute.
  - intros w Hw. unfold Spec.weight_addend. by rewrite Hw.
  - intros x Hx. unfold Spec.weight_addend. simpl. by rewrite Hx.
  - done.
  - intros x Hx. simpl. by rewrite Hx.
  - eexists _, _, _. split_and!; [by vm_compute | done..].
Qed.

Lemma card_totals_witness :
  App.group Sample.utc Sample.plain Sample.acme_ledger
  = Return Sample.acme_sections
  ∧ Sample.january ∈ Sample.acme_sections
  ∧ Sample.january_card ∈ App.cards Sample.january
  ∧ Spec.same_number
      (App.card_weight Sample.january_card)
      (Spec.sum (map (λ r, Spec.weight_addend (laundry_weight_kg r))
                     (App.card_records Sample.january_card)))
  ∧ Spec.same_number
      (App.card_price Sample.january_card)
      (Spec.sum (map (λ r, Spec.price_addend (price r))
                     (App.card_records Sample.january_card))).
Proof.
  assert (App.group Sample.utc Sample.plain Sample.acme_ledger
          = Return Sample.acme_sections) as Hgroup
    by (vm_compute; reflexivity).
  assert (Sample.january ∈ Sample.acme_sections) as Hsec
    by apply list_elem_of_further, list_elem_of_here.
  assert (Sample.january_card ∈ App.cards Sample.january) as Hcard
    by apply list_elem_of_here.
  destruct (card_totals Sample.utc Sample.plain Sample.acme_ledger
              Sample.acme_sections Sample.january Sample.january_card
              Hgroup Hsec Hcard) as (Hweight & Hprice & _).
  split_and!; assumption.
Defined.

(** C3, as the code has it. Two records of the same month whose service
    names differ only in case and in surrounding white space are shown on
    one card, and on no other; the card holds the records of that month and
    service in the ledger's order and shows the name of the first of them
    with its surrounding white space trimmed. The names Acme and acme
    between spaces are such a pair. *)
Theorem same_service_one_card LocalTZA toLocaleMonthYear history secs r1 r2 :
  App.group LocalTZA toLocaleMonthYear history = Return secs →
  r1 ∈ history → r2 ∈ history →
  App.sortKey LocalTZA (timestamp r1) = App.sortKey LocalTZA (timestamp r2) →
  toLowerCase (trim (laundry_service_name r1))
  = toLowerCase (trim (laundry_service_name r2)) →
  (∃ sec card first rest,
     sec ∈ secs ∧ card ∈ App.cards sec
     ∧ r1 ∈ App.card_records card ∧ r2 ∈ App.card_records card
     ∧ App.card_records card
       = filter (λ r, App.sortKey LocalTZA (timestamp r)
                      = App.sortKey LocalTZA (timestamp r1)
                      ∧ App.normalizedServiceKey r
                        = App.normalizedServiceKey r1) history
     ∧ App.card_records card = first :: rest
     ∧ App.card_name card = trim (laundry_service_name first)
     ∧ (∀ sec' card', sec' ∈ secs → card' ∈ App.cards sec' →
          r1 ∈ App.card_records card' → card' = card))
  ∧ toLowerCase (trim "Acme") = toLowerCase (trim "  acme ").
Proof.
  intros Hgroup Hr1 Hr2 Hk Hn. split; [|by vm_compute].
  by apply (shown_together LocalTZA toLocaleMonthYear).
Qed.

Lemma same_service_one_card_witness :
  App.group Sample.utc Sample.plain [Sample.spaced; Sample.cased]
  = Return Sample.spelled_sections
  ∧ ∃ sec card first rest,
      sec ∈ Sample.spelled_sections ∧ card ∈ App.cards sec
      ∧ Sample.spaced ∈ App.card_records card
      ∧ Sample.cased ∈ App.card_records card
      ∧ App.card_records card = first :: rest
      ∧ App.card_name card = trim (laundry_service_name first).
Proof.
  assert (App.group Sample.utc Sample.plain [Sample.spaced; Sample.cased]
          = Return Sample.spelled_sections) as Hgroup
    by (vm_compute; reflexivity).
  split; [exact Hgroup|].
  destruct (same_service_one_card Sample.utc Sample.plain
              [Sample.spaced; Sample.cased] Sample.spelled_sections
              Sample.spaced Sample.cased Hgroup)
    as [(sec & card & first & rest & Hsec & Hcard & H1 & H2 & _
         & Hrecords & Hname & _) _].
  - apply list_elem_of_here.
  - apply list_elem_of_further, list_elem_of_here.
  - vm_compute. reflexivity.
  - vm_compute. reflexivity.
  - exists sec, card, first, rest. split_and!; assumption.
Defined.

(** C3, as stated, fails: when the first record met has white space around
    its service name, the card does not show that name but its trimmed
    form. *)
Lemma display_name_counterexample :
  ∃ sec card,
    App.group Sample.utc Sample.plain [Sample.spaced; Sample.cased]
    = Return [sec]
    ∧ App.cards sec = [card]
    ∧ App.card_records card = [Sample.spaced; Sample.cased]
    ∧ App.card_name card = "acme"
    ∧ App.card_name card ≠ laundry_service_name Sample.spaced.
Proof.
  eexists _, _. split_and!; [by vm_compute | done..].
Qed.

(** * Further properties *)

(** ** Selecting and deleting *)

Section Selecting.

Implicit Types (st : App.state) (t : Z) (S : gset Z).

Lemma state_eq st st' :
  App.step st = App.step st' → App.result st = App.result st' →
  App.history st = App.history st' →
  App.isSelectionMode st = App.isSelectionMode st' →
  App.selectedTimestamps st = App.selectedTimestamps st' →
  st = st'.
Proof. destruct st, st'. simpl. by intros -> -> -> -> ->. Qed.

(** X1. Toggling the same record twice changes nothing: the selection, and
    with it the whole state, is as before. *)
Theorem toggleSelection_involutive t st :
  App.toggleSelection t (App.toggleSelection t st) = st.
Proof.
  apply state_eq; try done. apply toggleSelection_twice.
Qed.

Lemma toggleSelection_flips t t' st :
  t' ∈ App.selectedTimestamps (App.toggleSelection t st) ↔
  (t' = t ∧ t ∉ App.selectedTimestamps st)
  ∨ (t' ≠ t ∧ t' ∈ App.selectedTimestamps st).
Proof.
  rewrite toggleSelection_member. case_bool_decide; tauto.
Qed.

(** X2. Toggling two records gives the same selection in either order. *)
Theorem toggleSelection_commutes t1 t2 st :
  App.toggleSelection t1 (App.toggleSelection t2 st)
  = App.toggleSelection t2 (App.toggleSelection t1 st).
Proof.
  apply state_eq; try done. apply set_eq. intros t.
  rewrite !toggleSelection_flips.
  destruct (decide (t = t1)), (decide (t = t2)), (decide (t1 = t2));
    subst; tauto.
Qed.

Lemma NoDup_filter_timestamps (P : Z → Prop) `{!∀ t, Decision (P t)}
    (history : ledger) :
  map timestamp (filter (λ r, P (timestamp r)) history)
  = filter P (map timestamp history).
Proof.
  induction history as [|r history IH]; [done|].
  rewrite filter_cons. simpl. rewrite filter_cons.
  destruct (decide (P (timestamp r))); simpl; by rewrite IH.
Qed.

(** With timestamps that identify the records, a confirmed deletion of a
    selection taken from the ledger removes exactly as many records as are
    selected. *)
Lemma deleteSelected_length confirm st :
  confirm (App.confirm_message (size (App.selectedTimestamps st))) = true →
  NoDup (map timestamp (App.history st)) →
  (∀ t, t ∈ App.selectedTimestamps st → t ∈ map timestamp (App.history st)) →
  (length (App.history (App.deleteSelected confirm st))
   + size (App.selectedTimestamps st))%nat
  = length (App.history st).
Proof.
  intros Hyes Hnd Hsub. set (S := App.selectedTimestamps st) in *.
  set (T := map timestamp (App.history st)) in *.
  assert (App.history (App.deleteSelected confirm st)
          = filter (λ r, timestamp r ∉ S) (App.history st)) as ->.
  { unfold App.deleteSelected. fold S.
    destruct (Nat.eqb (size S) 0) eqn:Hsz; [|by rewrite Hyes].
    apply size_zero_empty in Hsz. symmetry. apply filter_all.
    intros r _. rewrite Hsz. apply not_elem_of_empty. }
  rewrite <- (length_map timestamp (filter _ _)).
  rewrite <- (length_map timestamp (App.history st)). fold T.
  pose proof (NoDup_filter_timestamps (λ t, t ∉ S) (App.history st)) as Hmap.
  simpl in Hmap. rewrite Hmap. clear Hmap. fold T.
  assert (NoDup (filter (λ t, t ∉ S) T)) as Hnd' by by apply NoDup_filter.
  rewrite <- (size_list_to_set (C := gset Z) _ Hnd').
  rewrite <- (size_list_to_set (C := gset Z) T Hnd).
  assert (list_to_set (C := gset Z) T
          = list_to_set (C := gset Z) (filter (λ t, t ∉ S) T) ∪ S) as ->.
  { apply set_eq. intros t.
    rewrite elem_of_union, !elem_of_list_to_set, list_elem_of_filter.
    destruct (decide (t ∈ S)); [|tauto].
    split; [by right | intros _; by apply Hsub]. }
  rewrite size_union; [done|].
  intros t Ht HS. apply elem_of_list_to_set, list_elem_of_filter in Ht.
  by destruct Ht.
Qed.

(** X3. After a confirmed deletion no record with a selected timestamp is
    left, however many shared it, and pressing delete again does nothing
    whatever the answer would be. *)
Theorem deleteSelected_settles confirm st :
  confirm (App.confirm_message (size (App.selectedTimestamps st))) = true →
  let st' := App.deleteSelected confirm st in
  (∀ r, r ∈ App.history st' → timestamp r ∉ App.selectedTimestamps st)
  ∧ ∀ gate, App.deleteSelected gate st' = st'.
Proof.
  intros Hyes st'. subst st'. unfold App.deleteSelected at 1 3 4.
  destruct (Nat.eqb (size (App.selectedTimestamps st)) 0) eqn:Hsz.
  - apply size_zero_empty in Hsz. split.
    + intros r _. rewrite Hsz. apply not_elem_of_empty.
    + intros gate. unfold App.deleteSelected. by rewrite Hsz.
  - rewrite Hyes. simpl. split.
    + intros r Hr. by apply list_elem_of_filter in Hr as [? _].
    + intros gate. by unfold App.deleteSelected.
Qed.

(** X4. Saving a record whose timestamp no record of the ledger has, then
    entering selection mode, selecting it and confirming the deletion,
    gives back the ledger as it was. *)
Theorem save_then_delete finalData confirm st :
  (∀ n, confirm (App.confirm_message n) = true) →
  timestamp finalData ∉ map timestamp (App.history st) →
  App.isSelectionMode st = false →
  let saved := App.handleSaveAndReset finalData st in
  let chosen :=
    App.toggleSelection (timestamp finalData)
      (App.toggleSelectionMode saved) in
  App.isSelectionMode chosen = true
  ∧ App.selectedTimestamps chosen = {[timestamp finalData]}
  ∧ App.history (App.deleteSelected confirm chosen) = App.history st
  ∧ App.isSelectionMode (App.deleteSelected confirm chosen) = false.
Proof.
  intros Hyes Hfresh Hmode saved chosen.
  assert (App.selectedTimestamps chosen = {[timestamp finalData]}) as Hsel.
  { subst chosen saved. unfold App.toggleSelection. simpl.
    rewrite bool_decide_false by apply not_elem_of_empty.
    apply (left_id_L ∅ (∪)). }
  assert (App.history chosen = finalData :: App.history st) as Hhist by done.
  split_and!; [subst chosen saved; simpl; by rewrite Hmode | done | |].
  - unfold App.deleteSelected. rewrite Hsel, size_singleton. simpl.
    rewrite Hyes. simpl. rewrite filter_cons.
    rewrite decide_False by (intros Hnot; apply Hnot; by apply elem_of_singleton).
    apply filter_all. intros r Hr. intros Hin.
    apply elem_of_singleton in Hin. apply Hfresh.
    rewrite <- Hin. apply list_elem_of_fmap. by exists r.
  - unfold App.deleteSelected. rewrite Hsel, size_singleton. simpl.
    by rewrite Hyes.
Qed.

End Selecting.

Lemma deleteSelected_settles_witness :
  let st := Sample.selecting {[Sample.jan20]} in
  let st' := App.deleteSelected (λ _, true) st in
  (∀ r, r ∈ App.history st' → timestamp r ∉ App.selectedTimestamps st)
  ∧ ∀ gate, App.deleteSelected gate st' = st'.
Proof.
  exact (deleteSelected_settles (λ _, true)
           (Sample.selecting {[Sample.jan20]}) eq_refl).
Defined.

Lemma save_then_delete_witness :
  let saved := App.handleSaveAndReset Sample.draft Session.idle in
  let chosen :=
    App.toggleSelection (timestamp Sample.draft)
      (App.toggleSelectionMode saved) in
  App.isSelectionMode chosen = true
  ∧ App.selectedTimestamps chosen = {[timestamp Sample.draft]}
  ∧ App.history (App.deleteSelected (λ _, true) chosen)
    = App.history Session.idle
  ∧ App.isSelectionMode (App.deleteSelected (λ _, true) chosen) = false.
Proof.
  apply (save_then_delete Sample.draft (λ _, true) Session.idle).
  - reflexivity.
  - apply (bool_decide_unpack _). vm_compute. exact I.
  - reflexivity.
Defined.

(** ** The component as a state machine *)

Section Machine.

Variable File : Type.
Variable calculatePrice : number → number.

Local Abbreviation state := (Component.state File).
Local Abbreviation event := (Component.event File).
Local Abbreviation handle := (Component.handle calculatePrice).
Local Abbreviation enabled := Component.enabled.
Local Abbreviation reachable := (Component.reachable File calculatePrice).
Local Abbreviation core := Component.core.
Local Abbreviation invariant := Component.invariant.

Implicit Types (st : state) (ev : event) (loaded : ledger).

Lemma invariant_initial loaded : invariant loaded (Component.initial File loaded).
Proof.
  unfold Component.invariant. split_and!; simpl; try done.
  intros r Hr. by left.
Qed.

Lemma handleSave_confirmed data view :
  More.confirmed (ResultsView.handleSave data view).
Proof.
  split; simpl; [|by eexists].
  eexists. split; [done | apply or_zero_not_NaN].
Qed.

Lemma invariant_handle loaded st ev :
  invariant loaded st → enabled st ev → invariant loaded (handle st ev).
Proof.
  unfold Component.invariant.
  intros (Hdraft & Hmode & Hsel & Hhist & Hform) Hen.
  destruct ev as [s|f|f| |outcome|edits| | |record|answer| ]; simpl in *.
  - split_and!; try done.
  - split_and!; try done.
  - split_and!; try done.
  - assert (App.result (core st) = None) as Hnone.
    { destruct (App.result (core st)) eqn:Hres; [|done].
      destruct Hdraft as [_ Hdraft]. rewrite Hen in Hdraft.
      by discriminate Hdraft. }
    unfold Component.handleSubmit.
    destruct (Component.serviceName st) as [|c s] eqn:Hname;
      [simpl; by split_and!|].
    destruct (Component.weightPhoto st) as [w|] eqn:Hw;
      [|simpl; by split_and!].
    destruct (Component.customerPhoto st) as [p|] eqn:Hp;
      [|simpl; by split_and!].
    simpl. rewrite Hname, Hw, Hp, Hnone. split_and!; try done.
  - destruct outcome as [data|e]; simpl; split_and!; try done.
    + intros _. apply Hform. by rewrite Hen.
    + split; [done|]. intros Hres. apply Hdraft in Hres.
      by rewrite Hen in Hres.
  - destruct Hen as [Hstep [data Hdata]]. rewrite Hdata. simpl.
    split_and!; try done.
    + intros t Ht. right. by apply Hsel.
    + intros r [->|Hr]%elem_of_cons; [right|by apply Hhist].
      apply handleSave_confirmed.
  - by split_and!.
  - by split_and!.
  - destruct Hen as [Hstep Hrec]. unfold Component.clickRecord.
    destruct (App.isSelectionMode (core st)) eqn:Hsm; simpl;
      split_and!; try done.
    + by rewrite Hsm.
    + intros t Ht.
      change (t ∈ App.selectedTimestamps
                (App.toggleSelection (timestamp record) (core st))) in Ht.
      apply toggleSelection_flips in Ht as [[-> _]|[_ Ht]];
        [by apply list_elem_of_fmap_2 | by apply Hsel].
    + intros _. by apply Hmode.
  - destruct Hen as (Hstep & Hsm & Hne).
    unfold App.deleteSelected.
    destruct (Nat.eqb_spec (size (App.selectedTimestamps (core st))) 0)
      as [Hz|Hz]; [by apply size_empty_inv, leibniz_equiv in Hz|].
    destruct answer; simpl; split_and!; try done.
    + intros r [_ Hr]%list_elem_of_filter. by apply Hhist.
  - split_and!; try done.
Qed.

Lemma reachable_invariant loaded st : reachable loaded st → invariant loaded st.
Proof.
  induction 1 as [|st ev _ IH Hen];
    [apply invariant_initial | by apply invariant_handle].
Qed.

(** X5. The results view is on the page exactly when there is a draft: a
    draft never stays behind in another step, and step [RESULT] never
    lacks one. *)
Theorem draft_iff_result_step loaded st :
  reachable loaded st →
  App.step (core st) = RESULT ↔ is_Some (App.result (core st)).
Proof. intros Hst. by destruct (reachable_invariant _ _ Hst). Qed.

(** X6. Only timestamps of records in the ledger are ever selected, and
    outside selection mode nothing is selected. *)
Theorem selection_within_ledger loaded st :
  reachable loaded st →
  (∀ t, t ∈ App.selectedTimestamps (core st) →
        ∃ r, r ∈ App.history (core st) ∧ timestamp r = t)
  ∧ (App.isSelectionMode (core st) = false →
       App.selectedTimestamps (core st) = ∅).
Proof.
  intros Hst. destruct (reachable_invariant _ _ Hst) as (_ & Hmode & Hsel & _).
  split; [|done]. intros t Ht.
  apply Hsel, list_elem_of_fmap in Ht as (r & -> & Hr). by exists r.
Qed.

(** X7. Every record the component adds to the ledger it was loaded with has a
    weight that is a number other than [NaN] and has a price: an unclear
    weight can only come from the loaded ledger. *)
Theorem added_records_confirmed loaded st r :
  reachable loaded st → r ∈ App.history (core st) →
  r ∈ loaded ∨ More.confirmed r.
Proof.
  intros Hst. destruct (reachable_invariant _ _ Hst) as (_ & _ & _ & Hhist & _).
  apply Hhist.
Qed.

(** X8. While an extraction is under way or its draft is under review, the
    form still holds the complete inputs: a service name and both
    photographs. No request is ever sent with one of them missing. *)
Theorem inputs_complete_beyond_input loaded st :
  reachable loaded st → App.step (core st) ≠ INPUT →
  Component.serviceName st ≠ ""
  ∧ is_Some (Component.weightPhoto st)
  ∧ is_Some (Component.customerPhoto st).
Proof.
  intros Hst Hstep.
  destruct (reachable_invariant _ _ Hst) as (_ & _ & _ & _ & Hform).
  destruct (Hform Hstep) as (? & ? & ? & _). by split_and!.
Qed.

(** X9. An error message is only ever on the page together with the input
    form: none is shown while an extraction is under way or a draft is
    under review. *)
Theorem error_only_with_form loaded st :
  reachable loaded st → is_Some (Component.error st) →
  App.step (core st) = INPUT.
Proof.
  intros Hst Herr.
  destruct (reachable_invariant _ _ Hst) as (_ & _ & _ & _ & Hform).
  destruct (App.step (core st)) eqn:Hstep; [done| |].
  all: destruct Hform as (_ & _ & _ & Hnone); [done|].
  all: rewrite Hnone in Herr; by destruct Herr.
Qed.

(** X10. Discarding a draft keeps the inputs that led to it, so that
    submitting again sends the same request; saving a draft clears them,
    so that submitting again sends nothing. *)
Theorem discard_keeps_inputs loaded st :
  reachable loaded st → App.step (core st) = RESULT →
  (∃ weight customer,
     Component.weightPhoto st = Some weight
     ∧ Component.customerPhoto st = Some customer
     ∧ (Component.handleSubmit (Component.handleDiscard st)).2
       = Some (Component.serviceName st, weight, customer))
  ∧ ∀ finalData,
      (Component.handleSubmit
         (Component.handleSaveAndReset finalData st)).2 = None.
Proof.
  intros Hst Hstep.
  destruct (reachable_invariant _ _ Hst) as (_ & _ & _ & _ & Hform).
  destruct Hform as (Hname & [w Hw] & [c Hc] & _); [by rewrite Hstep|].
  split; [|done]. exists w, c. split_and!; try done.
  unfold Component.handleSubmit. simpl. rewrite Hw, Hc.
  by destruct (Component.serviceName st).
Qed.

Lemma component_run_snoc st evs ev :
  Component.run calculatePrice st (evs ++ [ev])
  = handle (Component.run calculatePrice st evs) ev.
Proof. unfold Component.run. by rewrite foldl_app. Qed.

(** X11. Every record of the ledger was either loaded or made of a draft that
    an extraction returned. This holds after any sequence of events,
    whether or not their controls were on the page: nothing else ever
    puts a record into the ledger. *)
Theorem ledger_provenance loaded evs r :
  r ∈ App.history (core (Component.run calculatePrice
                           (Component.initial File loaded) evs)) →
  r ∈ loaded
  ∨ ∃ data, Component.Settled (Return data) ∈ evs ∧ More.made_of r data.
Proof.
  set (final := λ evs, core (Component.run calculatePrice
                               (Component.initial File loaded) evs)).
  assert (∀ evs,
    (∀ data, App.result (final evs) = Some data →
       Component.Settled (Return data) ∈ evs)
    ∧ ∀ r, r ∈ App.history (final evs) →
        r ∈ loaded
        ∨ ∃ data, Component.Settled (Return data) ∈ evs
                  ∧ More.made_of r data) as Hinv.
  { clear evs r. intros evs.
    induction evs as [|ev evs [IHres IHhist]] using rev_ind.
    - split; [done | by left].
    - assert (∀ r,
        r ∈ App.history (final evs) →
        r ∈ loaded
        ∨ ∃ data, Component.Settled (Return data) ∈ evs ++ [ev]
                  ∧ More.made_of r data) as Hold.
      { intros r [Hr | (data & Hdata & Hr)]%IHhist; [by left | right].
        exists data. split; [|done]. apply elem_of_app. by left. }
      assert (∀ data, App.result (final evs) = Some data →
        Component.Settled (Return data) ∈ evs ++ [ev]) as Hres.
      { intros data Hdata%IHres. apply elem_of_app. by left. }
      unfold final in *. rewrite component_run_snoc.
      set (st := Component.run calculatePrice
                   (Component.initial File loaded) evs) in *.
      clearbody st. clear IHres IHhist.
      destruct ev as [s|f|f| |outcome|edits| | |record|answer| ];
        simpl; try (split; assumption).
      + unfold Component.handleSubmit. repeat case_match; split; assumption.
      + destruct outcome as [data|e]; simpl; (split; [|done]).
        * intros ? [= <-]. apply elem_of_app. right. by left.
        * done.
      + destruct (App.result (core st)) as [data|] eqn:Hdata.
        2: { split; [by rewrite Hdata | assumption]. }
        simpl. split; [done|].
        intros r [->|Hr]%elem_of_cons; [right | by apply Hold].
        exists data. split; [by apply Hres | done].
      + by split.
      + unfold Component.clickRecord. case_match; split; assumption.
      + unfold App.deleteSelected. repeat case_match; try by split.
        simpl. split; [done|].
        intros r [_ Hr]%list_elem_of_filter. by apply Hold. }
  apply Hinv.
Qed.

(** X12. With timestamps that identify the records, confirming the delete
    button removes exactly as many records as are selected. *)
Theorem delete_button_count loaded st :
  reachable loaded st →
  NoDup (More.timestamps (App.history (core st))) →
  (length (App.history (core (handle st (Component.Deleted true))))
   + size (App.selectedTimestamps (core st)))%nat
  = length (App.history (core st)).
Proof.
  intros Hst Hnd.
  destruct (reachable_invariant _ _ Hst) as (_ & _ & Hsel & _).
  simpl. by apply deleteSelected_length.
Qed.

End Machine.

Lemma reachable_run {File : Type} (calculatePrice : number → number)
    (loaded : ledger) (evs : list (Component.event File)) :
  ∀ st, Component.reachable File calculatePrice loaded st →
    Component.enabled_along calculatePrice st evs →
    Component.reachable File calculatePrice loaded
      (Component.run calculatePrice st evs).
Proof.
  induction evs as [|ev evs IH]; intros st Hst Hen; [done|].
  destruct Hen as [Hev Hen]. apply IH; [|done].
  by apply Component.reachable_step.
Qed.

Lemma submitting_reachable :
  Component.reachable Session.photo Sample.per_kilo Sample.acme_ledger
    (Session.after Session.submitting).
Proof.
  apply reachable_run; [apply Component.reachable_initial|].
  simpl. by repeat split.
Qed.

Lemma saving_reachable :
  Component.reachable Session.photo Sample.per_kilo Sample.acme_ledger
    (Session.after Session.saving).
Proof.
  apply reachable_run; [apply Component.reachable_initial|].
  simpl. repeat split; by eexists.
Qed.

Lemma choosing_reachable :
  Component.reachable Session.photo Sample.per_kilo Sample.acme_ledger
    (Session.after Session.choosing).
Proof.
  apply reachable_run; [apply Component.reachable_initial|].
  simpl. repeat split. by right; left.
Qed.

Lemma draft_iff_result_step_witness :
  App.step (Component.core (Session.after Session.submitting)) = RESULT
  ↔ is_Some (App.result (Component.core (Session.after Session.submitting))).
Proof.
  exact (draft_iff_result_step Session.photo Sample.per_kilo
           Sample.acme_ledger _ submitting_reachable).
Defined.

Lemma selection_within_ledger_witness :
  let st := Component.core (Session.after Session.choosing) in
  (∀ t, t ∈ App.selectedTimestamps st →
        ∃ r, r ∈ App.history st ∧ timestamp r = t)
  ∧ (App.isSelectionMode st = false → App.selectedTimestamps st = ∅).
Proof.
  exact (selection_within_ledger Session.photo Sample.per_kilo
           Sample.acme_ledger _ choosing_reachable).
Defined.

Lemma added_records_confirmed_witness :
  Session.saved ∈ Sample.acme_ledger ∨ More.confirmed Session.saved.
Proof.
  apply (added_records_confirmed Session.photo Sample.per_kilo
           Sample.acme_ledger (Session.after Session.saving)).
  - exact saving_reachable.
  - by left.
Defined.

Lemma inputs_complete_beyond_input_witness :
  let st := Session.after Session.submitting in
  Component.serviceName st ≠ ""
  ∧ is_Some (Component.weightPhoto st)
  ∧ is_Some (Component.customerPhoto st).
Proof.
  apply (inputs_complete_beyond_input Session.photo Sample.per_kilo
           Sample.acme_ledger).
  - exact submitting_reachable.
  - discriminate.
Defined.

Lemma error_only_with_form_witness :
  App.step (Component.core
    (Component.handle Sample.per_kilo
       (Component.initial Session.photo Sample.acme_ledger)
       Component.Submitted)) = INPUT.
Proof.
  apply (error_only_with_form Session.photo Sample.per_kilo
           Sample.acme_ledger).
  - apply Component.reachable_step;
      [apply Component.reachable_initial | reflexivity].
  - by eexists.
Defined.

Lemma discard_keeps_inputs_witness :
  let st := Session.after Session.submitting in
  (∃ weight customer,
     Component.weightPhoto st = Some weight
     ∧ Component.customerPhoto st = Some customer
     ∧ (Component.handleSubmit (Component.handleDiscard st)).2
       = Some (Component.serviceName st, weight, customer))
  ∧ ∀ finalData,
      (Component.handleSubmit
         (Component.handleSaveAndReset finalData st)).2 = None.
Proof.
  apply (discard_keeps_inputs Session.photo Sample.per_kilo
           Sample.acme_ledger).
  - exact submitting_reachable.
  - reflexivity.
Defined.

Lemma ledger_provenance_witness :
  Session.saved ∈ Sample.acme_ledger
  ∨ ∃ data, Component.Settled (Return data) ∈ Session.saving
            ∧ More.made_of Session.saved data.
Proof.
  apply (ledger_provenance Session.photo Sample.per_kilo).
  by left.
Defined.

Lemma delete_button_count_witness :
  let st := Session.after Session.choosing in
  (length (App.history (Component.core
             (Component.handle Sample.per_kilo st (Component.Deleted true))))
   + size (App.selectedTimestamps (Component.core st)))%nat
  = length (App.history (Component.core st)).
Proof.
  apply (delete_button_count Session.photo Sample.per_kilo
           Sample.acme_ledger).
  - exact choosing_reachable.
  - apply (bool_decide_unpack _). by vm_compute.
Defined.

(** ** Reviewing a draft *)

Section Reviewing.

Variable calculatePrice : number → number.

(** X13. The price an extraction returns is never saved: the effect that runs
    when the results view is mounted prices the draft from its weight, so
    that two drafts that differ in their price only are in the same state
    after the same edits and are saved as the same record. *)
Theorem extracted_price_overridden p data evs :
  ResultsView.run calculatePrice (More.with_price p data) evs
  = ResultsView.run calculatePrice data evs
  ∧ ResultsView.handleSave (More.with_price p data)
      (ResultsView.run calculatePrice (More.with_price p data) evs)
    = ResultsView.handleSave data (ResultsView.run calculatePrice data evs).
Proof.
  assert (ResultsView.run calculatePrice (More.with_price p data) evs
          = ResultsView.run calculatePrice data evs) as Hrun.
  { unfold ResultsView.run. f_equal. }
  split; [done|]. by rewrite Hrun.
Qed.

End Reviewing.

(** ** Persisting the ledger *)

Section Persisting.

Variable LocalTZA : Z → Z.
Variable toLocaleMonthYear : Z → string.
Variable JSON_stringify : App.held → string.
Variable JSON_parse : string → except App.held.
Variable accepts : option string → string → bool.

Local Abbreviation save := (Persistence.save JSON_stringify accepts).
Local Abbreviation saves := (Persistence.saves JSON_stringify accepts).
Local Abbreviation load := (Persistence.load JSON_parse).
Local Abbreviation mount :=
  (Persistence.mount LocalTZA toLocaleMonthYear JSON_stringify JSON_parse
     accepts).

Implicit Types (stored : Persistence.store) (history : App.held).

Lemma saves_rejected stored histories :
  Forall (λ history, accepts stored (JSON_stringify history) = false)
         histories →
  saves stored histories = stored.
Proof.
  unfold Persistence.saves.
  induction 1 as [|history histories Hno _ IH]; [done|].
  simpl. unfold Persistence.save at 2. by rewrite Hno.
Qed.

Lemma load_stored text history :
  text ≠ "" → JSON_parse text = Return history →
  load (Some text) = (history, []).
Proof.
  intros Hne Hparse. unfold Persistence.load, App.load.
  rewrite load_try_cases. destruct text as [|c text]; [done|].
  by rewrite Hparse.
Qed.

(** X14. What the next start of the application reads is the last history the
    store accepted: histories saved after it that the store rejected are
    lost, and whatever was saved before it no longer matters. *)
Theorem load_last_accepted stored before history after :
  accepts (saves stored before) (JSON_stringify history) = true →
  Forall (λ later, accepts (Some (JSON_stringify history))
                           (JSON_stringify later) = false) after →
  JSON_stringify history ≠ "" →
  JSON_parse (JSON_stringify history) = Return history →
  load (saves stored (before ++ history :: after)) = (history, []).
Proof.
  intros Hyes Hno Hne Hparse.
  unfold Persistence.saves. rewrite fold_left_app. simpl.
  fold (saves stored before).
  unfold Persistence.save at 2. rewrite Hyes. simpl.
  fold (saves (Some (JSON_stringify history)) after).
  rewrite saves_rejected by done. by apply load_stored.
Qed.

(** X15. Starting the application on a stored text that does not parse leaves
    an empty ledger in memory and overwrites the stored text with the
    serialisation of the empty ledger: the unreadable text is gone. *)
Theorem mount_overwrites_unreadable text e :
  JSON_parse text = Throw e →
  accepts (Some text) (JSON_stringify (App.Records [])) = true →
  mount (Some text)
  = Some (App.Records [], Some (JSON_stringify (App.Records []))).
Proof.
  intros Hparse Hyes. unfold Persistence.mount, Persistence.load, App.load.
  rewrite load_try_cases.
  destruct text as [|c text]; [|rewrite Hparse]; simpl;
    unfold Persistence.save; by rewrite Hyes.
Qed.

(** X25. What makes the first render throw stays in the store: starting the
    application on a stored text that parses to a JSON value that is not
    an array, or to a ledger with a record whose service key plain
    objects inherit, leaves that history in memory and the store as it
    is, whatever the store would accept. The next start finds the same
    text. *)
Theorem mount_keeps_what_throws text h :
  text ≠ "" → JSON_parse text = Return h →
  (∃ v, h = App.Foreign v ∧ ∀ items, v ≠ JArray items)
  ∨ (∃ records, h = App.Records records
                ∧ Exists (λ r, ¬ Spec.plain_service r) records) →
  mount (Some text) = Some (h, Some text).
Proof.
  intros Hne Hparse Hthrows.
  unfold Persistence.mount. fold (load (Some text)).
  rewrite (load_stored _ _ Hne Hparse). simpl.
  destruct Hthrows as [(v & -> & Hv) | (records & -> & Hex)].
  - destruct v as [| | | |items|]; try done. by destruct (Hv items).
  - simpl. unfold App.groupedHistory.
    by rewrite (reduce_inherited LocalTZA toLocaleMonthYear records [] []
                  (grouping_empty LocalTZA) Hex).
Qed.

End Persisting.

Lemma load_last_accepted_witness :
  Persistence.load Session.parse
    (Persistence.saves Session.stringify Session.accepts None
       ([App.Records []] ++ App.Records Sample.acme_ledger
                            :: [Session.eleven]))
  = (App.Records Sample.acme_ledger, []).
Proof.
  apply (load_last_accepted Session.stringify Session.parse Session.accepts).
  - reflexivity.
  - by repeat constructor.
  - discriminate.
  - reflexivity.
Defined.

Lemma mount_overwrites_unreadable_witness :
  Persistence.mount Sample.utc Sample.plain Session.stringify Session.parse
    Session.accepts (Some "[{")
  = Some (App.Records [], Some (Session.stringify (App.Records []))).
Proof.
  apply (mount_overwrites_unreadable Sample.utc Sample.plain
           Session.stringify Session.parse Session.accepts "[{" SyntaxError);
    reflexivity.
Defined.

Lemma mount_keeps_what_throws_witness :
  Persistence.mount Sample.utc Sample.plain Session.stringify
    Sample.JSON_parse Session.accepts (Some "null")
  = Some (App.Foreign JNull, Some "null").
Proof.
  apply (mount_keeps_what_throws Sample.utc Sample.plain Session.stringify
           Sample.JSON_parse Session.accepts "null" (App.Foreign JNull)).
  - discriminate.
  - reflexivity.
  - left. exists JNull. split; [reflexivity | discriminate].
Defined.

(** ** Price texts *)

Section PriceTexts.

Lemma app_nonempty_l (a b : string) : a ≠ "" → a +:+ b ≠ "".
Proof. by destruct a. Qed.

Lemma app_nonempty_r (a b : string) : b ≠ "" → a +:+ b ≠ "".
Proof. destruct a; [by rewrite app_empty | done]. Qed.

Lemma Z_toString_nonempty (z : Z) : Z_toString z ≠ "".
Proof.
  unfold Z_toString, NilZero.string_of_int, NilZero.string_of_uint.
  by destruct (Z.to_int z) as [d|d]; destruct d.
Qed.

Lemma positive_toString_nonempty (m : positive) (e : Z) :
  positive_toString m e ≠ "".
Proof.
  unfold positive_toString. destruct (fraction m e) as [num den].
  destruct (shortest_digits _ _ _ _ _ _) as [[s k] n].
  pose proof (Z_toString_nonempty s) as Hds.
  repeat case_match; try done.
  all: first [ by apply app_nonempty_l
             | by apply app_nonempty_r
             | by do 2 apply app_nonempty_r ].
Qed.

Lemma Number_toString_nonempty (x : number) : Number_toString x ≠ "".
Proof.
  destruct x as [s|[]| |[] m e]; try done.
  all: simpl; apply positive_toString_nonempty.
Qed.

Lemma toFixed2_nonempty (x : number) : toFixed2 x ≠ "".
Proof.
  destruct x as [s|[]| |s m e]; try done.
  unfold toFixed2. destruct (fraction m e) as [num den].
  case_match; [apply Number_toString_nonempty|].
  apply app_nonempty_r, app_nonempty_r. done.
Qed.

(** X16. The details modal and the export print the same price for a record,
    unless its price is [NaN]: then the modal prints NaN and the export
    0.00. Where the list of a card prints a price at all, it prints what
    the modal prints. *)
Theorem price_texts_agree (data : LaundryOrderResult) :
  (PriceText.modal data = PriceText.exported data ↔ price data ≠ Some NaN)
  ∧ (∀ text, PriceText.listed data = Some text → PriceText.modal data = text).
Proof.
  unfold PriceText.modal, PriceText.exported, PriceText.listed.
  destruct (price data) as [x|]; simpl; [|by split].
  pose proof (toFixed2_nonempty x) as Hne.
  assert (PriceText.or_else (toFixed2 x) "0.00" = toFixed2 x) as ->
    by by destruct (toFixed2 x).
  split; [|by intros text [= <-]].
  destruct x as [s|s| |s m e]; simpl; split; try done.
Qed.

End PriceTexts.

(** ** The confidence banner *)

Section Confidence.

Local Abbreviation position := More.position.
Local Abbreviation before := More.before.

Lemma compare_cont_Eq (m1 m2 : positive) :
  PosDef.Pos.compare_cont Eq m1 m2 = (Zpos m1 ?= Zpos m2).
Proof. done. Qed.

Lemma gt_before (x y : number) :
  Compare.gt x y = true ↔
  isNaN x = false ∧ isNaN y = false ∧ before (position y) (position x).
Proof.
  unfold Compare.gt, SFltb, SFcompare, More.before.
  destruct x as [s1|s1| |s1 m1 e1], y as [s2|s2| |s2 m2 e2];
    try destruct s1; try destruct s2; simpl;
    rewrite ?compare_cont_Eq;
    try (destruct (Z.compare_spec e2 e1));
    try (destruct (Z.compare_spec (Zpos m2) (Zpos m1))); simpl;
    split; try done; try lia; intros (_ & _ & ?); lia.
Qed.

Lemma le_before (x y : number) :
  Compare.le x y = true ↔
  isNaN x = false ∧ isNaN y = false ∧ ¬ before (position y) (position x).
Proof.
  unfold Compare.le, SFleb, SFcompare, More.before.
  destruct x as [s1|s1| |s1 m1 e1], y as [s2|s2| |s2 m2 e2];
    try destruct s1; try destruct s2; simpl;
    rewrite ?compare_cont_Eq;
    try (destruct (Z.compare_spec e1 e2));
    try (destruct (Z.compare_spec (Zpos m1) (Zpos m2))); simpl;
    split; try done; try lia; intros (_ & _ & ?); lia.
Qed.

Lemma gt_position (x y : number) :
  isNaN x = false → isNaN y = false →
  Compare.gt x y = if bool_decide (before (position y) (position x))
                   then true else false.
Proof.
  intros Hx Hy. case_bool_decide as Hb.
  - by apply gt_before.
  - apply not_true_iff_false. intros (_ & _ & Hlt)%gt_before. by apply Hb.
Qed.

Lemma le_position (x y : number) :
  isNaN x = false → isNaN y = false →
  Compare.le x y = if bool_decide (before (position y) (position x))
                   then false else true.
Proof.
  intros Hx Hy. case_bool_decide as Hb.
  - apply not_true_iff_false. intros (_ & _ & Hlt)%le_before. by apply Hlt.
  - by apply le_before.
Qed.

(** X17. The banner never gets worse with more confidence: a draft whose
    confidence score is at least that of another has a banner at least as
    good, red below yellow below green. *)
Theorem banner_monotone (a b : LaundryOrderResult) :
  Compare.le (extraction_confidence_score a) (extraction_confidence_score b)
    = true →
  More.rank (Banner.banner a) ≤ More.rank (Banner.banner b).
Proof.
  unfold Banner.banner, Banner.isHighConfidence, Banner.isMediumConfidence.
  set (x := extraction_confidence_score a).
  set (y := extraction_confidence_score b).
  intros (Hx & Hy & Hxy)%le_before.
  rewrite !gt_position, !le_position by done.
  assert (before (position Compare.point_five)
                 (position Compare.point_eight)) as H58
    by (unfold More.before; simpl; lia).
  revert Hxy H58. unfold More.before.
  destruct (position x) as [[x1 x2] x3], (position y) as [[y1 y2] y3],
    (position Compare.point_five) as [[f1 f2] f3],
    (position Compare.point_eight) as [[e1 e2] e3]; simpl.
  intros Hxy H58.
  repeat case_bool_decide; simpl; lia.
Qed.

End Confidence.

Lemma banner_monotone_witness :
  More.rank (Banner.banner (Session.scored "0.6"))
  ≤ More.rank (Banner.banner (Session.scored "0.85")).
Proof.
  apply (banner_monotone (Session.scored "0.6") (Session.scored "0.85")).
  by vm_compute.
Defined.

(** ** The saved batches on the page *)

Section Page.

Variable LocalTZA : Z → Z.
Variable toLocaleMonthYear : Z → string.

Local Abbreviation sortKey := (App.sortKey LocalTZA).
Local Abbreviation group_step := (App.group_step LocalTZA toLocaleMonthYear).
Local Abbreviation group := (App.group LocalTZA toLocaleMonthYear).
Local Abbreviation serviceKey := App.normalizedServiceKey.
Local Abbreviation stepped := (Spec.stepped LocalTZA toLocaleMonthYear).
Local Abbreviation grouping := (Spec.grouping LocalTZA).

Implicit Types (acc grouped : obj App.MonthGroup) (curr r : LaundryOrderResult)
  (history : ledger) (k n : string).

Lemma set_nonempty {A : Type} (o : obj A) k (a : A) : set o k a ≠ [].
Proof. destruct o as [|[k' a'] o]; simpl; [done|]. by case_bool_decide. Qed.

Lemma stepped_inhabited acc curr :
  More.months_inhabited acc → More.months_inhabited (stepped acc curr).
Proof.
  intros Hacc k m. unfold Spec.stepped.
  destruct (decide (sortKey (timestamp curr) = k)) as [<-|Hne].
  - rewrite own_set_eq. intros [= <-]. simpl. apply set_nonempty.
  - rewrite own_set_ne by done. apply Hacc.
Qed.

Lemma reduce_inhabited history : ∀ acc grouped,
  More.months_inhabited acc →
  App.reduce group_step history acc = Return grouped →
  More.months_inhabited grouped.
Proof.
  induction history as [|curr history IH]; intros acc grouped Hacc.
  - simpl. by intros [= <-].
  - simpl. rewrite group_step_eq. case_bool_decide as Hthrow; [done|].
    simpl. apply IH. by apply stepped_inhabited.
Qed.

(** What the rendering is made of, with no month left without a group. *)
Lemma group_inhabited history secs :
  group history = Return secs →
  ∃ grouped,
    grouping history grouped
    ∧ More.months_inhabited grouped
    ∧ Spec.sections_of grouped (App.sortedMonthKeys grouped) secs.
Proof.
  unfold App.group, App.groupedHistory.
  destruct (App.reduce group_step history []) as [grouped|e] eqn:Hred;
    [|done].
  simpl. intros Hsecs. exists grouped.
  pose proof (reduce_grouping _ _ history [] [] grouped
                (grouping_empty _) Hred) as Hinv.
  split_and!; [done | by apply (reduce_inhabited history []) |].
  destruct (sections_eq grouped (App.sortedMonthKeys grouped))
    as (secs' & Hsecs'' & Hall).
  - apply Forall_forall. intros k Hk.
    rewrite sortedMonthKeys_Permutation in Hk.
    destruct (own grouped k) as [m|] eqn:Hm; [by eexists|].
    by apply own_None in Hm.
  - rewrite Hsecs'' in Hsecs. by injection Hsecs as <-.
Qed.

(** X18. Nothing empty is shown: the saved batches are on the page exactly when
    the ledger has a record, every month section has a card, and every
    card has a record. *)
Theorem nothing_empty_shown history secs :
  group history = Return secs →
  (secs = [] ↔ history = [])
  ∧ ∀ sec, sec ∈ secs →
      App.cards sec ≠ []
      ∧ ∀ card, card ∈ App.cards sec → App.card_records card ≠ [].
Proof.
  intros Hgroup.
  destruct (group_inhabited _ _ Hgroup) as (grouped & Hinv & Hmonths & Hsecs).
  split.
  - split.
    + intros ->.
      pose proof (shown_records_grouped _ _ _ _ Hinv Hsecs) as Hperm.
      by apply Permutation_nil in Hperm.
    + intros ->. revert Hgroup. by intros [= <-].
  - intros sec Hsec.
    destruct (elem_of_sections _ _ _ _ Hsecs Hsec) as (k & m & _ & Hm & ->).
    split.
    + simpl. intros Hnil. apply fmap_nil_inv in Hnil.
      pose proof (Object_values_Permutation (App.services m)) as Hperm.
      rewrite Hnil in Hperm. apply Permutation_nil in Hperm.
      apply fmap_nil_inv in Hperm. by apply (Hmonths k m).
    + intros card Hcard.
      apply (elem_of_cards _ history grouped k m card Hinv Hm) in Hcard
        as (n & g & Hg & ->).
      destruct Hinv as (_ & Hgroups & _).
      destruct (Hgroups k m Hm) as [_ Hnamed].
      destruct (Hnamed n g Hg) as (_ & first & rest & Hrec & _).
      simpl. by rewrite Hrec.
Qed.

Lemma NoDup_map_through {A B C : Type} (f : A → B) (g : A → C) (h : C → B)
    (l : list A) :
  (∀ x, x ∈ l → f x = h (g x)) → NoDup (map f l) → NoDup (map g l).
Proof.
  induction l as [|x l IH]; simpl; intros Hfg Hnd; [constructor|].
  apply NoDup_cons in Hnd as [Hx Hnd]. apply NoDup_cons. split.
  - intros (y & Hxy & Hy)%list_elem_of_fmap. apply Hx.
    apply list_elem_of_fmap. exists y. split; [|done].
    rewrite (Hfg x), (Hfg y), Hxy; [done | by right | by left].
  - apply IH; [|done]. intros y Hy. apply Hfg. by right.
Qed.

Lemma app_inj_string (a x y : string) : a +:+ x = a +:+ y → x = y.
Proof.
  induction a as [|c a IH]; rewrite ?app_empty; [done|].
  rewrite !app_String. intros [= Heq]. by apply IH.
Qed.

(** X19. The keys React is given are distinct among siblings: no two month
    sections have the same key, and no two cards of a section have. *)
Theorem react_keys_distinct history secs :
  group history = Return secs →
  NoDup (map More.section_key secs)
  ∧ ∀ sec, sec ∈ secs → NoDup (map (More.card_key sec) (App.cards sec)).
Proof.
  intros Hgroup.
  destruct (group_grouping _ _ _ _ Hgroup) as (grouped & Hinv & Hsecs).
  pose proof Hinv as (Hnd & Hmonths & Hat & _).
  split.
  - change (map More.section_key secs) with (map App.monthKey secs).
    rewrite (sections_of_keys _ _ _ Hsecs).
    by rewrite sortedMonthKeys_Permutation.
  - intros sec Hsec.
    destruct (elem_of_sections _ _ _ _ Hsecs Hsec) as (k & m & _ & Hm & ->).
    destruct (Hmonths k m Hm) as [Hndm Hgroups].
    assert (NoDup (map (λ p, App.displayName p.2) (App.services m)))
      as Hnames.
    { apply (NoDup_map_through fst _ toLowerCase); [|done].
      intros [n g] Hin. simpl.
      pose proof (elem_of_own _ _ _ Hndm Hin) as Hg.
      destruct (Hgroups n g Hg) as (_ & first & rest & Hrec & Hname).
      assert (first ∈ Spec.records_at grouped k n) as Hfirst.
      { unfold Spec.records_at. rewrite Hm, Hg, Hrec. by left. }
      rewrite Hat in Hfirst.
      apply list_elem_of_filter in Hfirst as [[_ Hn] _].
      by rewrite Hname, <- Hn. }
    simpl. rewrite map_map. unfold More.card_key. simpl.
    rewrite <- (map_map App.displayName (λ name, k +:+ "-" +:+ name)).
    assert (Inj (=) (=) (λ name, k +:+ "-" +:+ name)) as Hinj.
    { intros x y Heq. by apply app_inj_string, app_inj_string in Heq. }
    apply (NoDup_fmap_2 _).
    rewrite Object_values_Permutation. by rewrite map_map.
Qed.


(** *** Order on the page *)

Local Abbreviation of_month := (More.of_month LocalTZA).
Local Abbreviation ordered := (More.ordered LocalTZA toLocaleMonthYear).

Lemma first_seen_snoc (keys : list string) n :
  More.first_seen (keys ++ [n])
  = if bool_decide (n ∈ More.first_seen keys) then More.first_seen keys
    else More.first_seen keys ++ [n].
Proof. unfold More.first_seen. by rewrite foldl_app. Qed.

Lemma first_seen_elem_of (keys : list string) n :
  n ∈ More.first_seen keys → n ∈ keys.
Proof.
  induction keys as [|k keys IH] using rev_ind.
  - done.
  - rewrite first_seen_snoc, elem_of_app. case_bool_decide.
    + intros Hn. left. by apply IH.
    + intros [Hn | Hn]%elem_of_app; [left; by apply IH | by right].
Qed.

Lemma of_month_snoc k history curr :
  of_month k (history ++ [curr])
  = of_month k history
    ++ (if bool_decide (sortKey (timestamp curr) = k) then [curr] else []).
Proof.
  unfold More.of_month. rewrite filter_app, filter_cons, filter_nil.
  by destruct (decide (sortKey (timestamp curr) = k));
    [rewrite bool_decide_true | rewrite bool_decide_false].
Qed.

Lemma set_keys {A : Type} (o : obj A) n (a : A) :
  map fst (set o n a)
  = if bool_decide (n ∈ map fst o) then map fst o else map fst o ++ [n].
Proof.
  destruct (own o n) as [a'|] eqn:Hn.
  - rewrite set_keys_own by done. rewrite bool_decide_true; [done|].
    apply own_Some_elem_of in Hn. apply list_elem_of_fmap. by exists (n, a').
  - rewrite (set_new _ _ _ Hn), map_app. simpl.
    rewrite bool_decide_false; [done|]. by apply own_None.
Qed.

Lemma ordered_empty : ordered [] [].
Proof. by intros k. Qed.

Lemma stepped_ordered history acc curr :
  ordered history acc → ordered (history ++ [curr]) (stepped acc curr).
Proof.
  intros Hacc k. unfold Spec.stepped, Spec.month_of.
  rewrite of_month_snoc.
  set (key := sortKey (timestamp curr)).
  specialize (Hacc k).
  destruct (decide (key = k)) as [<-|Hne].
  - rewrite own_set_eq, bool_decide_true by done. simpl.
    destruct (own acc key) as [m|] eqn:Hm; simpl.
    + destruct Hacc as (Hkeys & first & rest & Hfirst & Hlabel).
      rewrite set_keys, map_app.
      change (map serviceKey [curr]) with [serviceKey curr].
      rewrite first_seen_snoc, Hkeys.
      split; [done|]. exists first, (rest ++ [curr]).
      by rewrite Hfirst.
    + rewrite Hacc. simpl. split; [done|]. by exists curr, [].
  - rewrite own_set_ne, bool_decide_false by done.
    simpl. by rewrite app_nil_r.
Qed.

Lemma reduce_ordered history : ∀ seen acc grouped,
  ordered seen acc →
  App.reduce group_step history acc = Return grouped →
  ordered (seen ++ history) grouped.
Proof.
  induction history as [|curr history IH]; intros seen acc grouped Hacc.
  - simpl. intros [= <-]. by rewrite (right_id [] (++)).
  - simpl. rewrite group_step_eq. case_bool_decide as Hthrow; [done|].
    simpl. intros Hred.
    rewrite (cons_middle curr), (assoc (++)).
    apply (IH _ (stepped acc curr)); [|done].
    by apply stepped_ordered.
Qed.

(** What the rendering is made of, with its order. *)
Lemma group_ordered history secs :
  group history = Return secs →
  ∃ grouped,
    grouping history grouped
    ∧ ordered history grouped
    ∧ Spec.sections_of grouped (App.sortedMonthKeys grouped) secs.
Proof.
  unfold App.group, App.groupedHistory.
  destruct (App.reduce group_step history []) as [grouped|e] eqn:Hred;
    [|done].
  simpl. intros Hsecs. exists grouped.
  pose proof (reduce_grouping _ _ history [] [] grouped
                (grouping_empty _) Hred) as Hinv.
  split_and!; [done | by apply (reduce_ordered history [] []) |].
  destruct (sections_eq grouped (App.sortedMonthKeys grouped))
    as (secs' & Hsecs'' & Hall).
  - apply Forall_forall. intros k Hk.
    rewrite sortedMonthKeys_Permutation in Hk.
    destruct (own grouped k) as [m|] eqn:Hm; [by eexists|].
    by apply own_None in Hm.
  - rewrite Hsecs'' in Hsecs. by injection Hsecs as <-.
Qed.

(** X21. The heading of a month section is the label of the first record of the
    ledger that falls into that month: with a ledger that has its newest
    record first, of the newest. *)
Theorem section_label_by_first history secs sec :
  group history = Return secs → sec ∈ secs →
  ∃ first rest,
    of_month (App.monthKey sec) history = first :: rest
    ∧ App.monthLabel sec = toLocaleMonthYear (timestamp first).
Proof.
  intros Hgroup Hsec.
  destruct (group_ordered _ _ Hgroup) as (grouped & Hinv & Hord & Hsecs).
  destruct (elem_of_sections _ _ _ _ Hsecs Hsec) as (k & m & _ & Hm & ->).
  specialize (Hord k). rewrite Hm in Hord. by destruct Hord.
Qed.

Lemma Object_values_plain {A : Type} (o : obj A) :
  Forall (λ p, array_index p.1 = None) o → Object_values o = map snd o.
Proof.
  intros Hall. unfold Object_values, Object_entries.
  assert (omap indexed o = []) as ->.
  { induction Hall as [|p o Hp _ IH]; [done|].
    simpl. unfold indexed at 1. by rewrite Hp. }
  assert (filter (λ p, array_index p.1 = None) o = o) as ->.
  { apply filter_all. by apply Forall_forall. }
  done.
Qed.

(** X22. The cards of a month section are in the order in which the records of
    that month first show their services, provided no service name,
    trimmed and in lower case, is an array index: with a ledger that has
    its newest record first, the service of the newest record comes
    first. *)
Theorem cards_in_order history secs sec :
  group history = Return secs → sec ∈ secs →
  (∀ r, r ∈ of_month (App.monthKey sec) history →
        array_index (serviceKey r) = None) →
  map (λ card, toLowerCase (App.card_name card)) (App.cards sec)
  = More.first_seen (map serviceKey (of_month (App.monthKey sec) history)).
Proof.
  intros Hgroup Hsec Hplain.
  destruct (group_ordered _ _ Hgroup) as (grouped & Hinv & Hord & Hsecs).
  destruct (elem_of_sections _ _ _ _ Hsecs Hsec) as (k & m & _ & Hm & ->).
  simpl in *. specialize (Hord k). rewrite Hm in Hord.
  destruct Hord as [Hkeys _]. rewrite <- Hkeys.
  destruct Hinv as (_ & Hmonths & Hat & _).
  destruct (Hmonths k m Hm) as [Hndm Hgroups].
  rewrite Object_values_plain.
  - rewrite !map_map. apply Forall_fmap_ext_1, Forall_forall.
    intros [n g] Hin. simpl. pose proof (elem_of_own _ _ _ Hndm Hin) as Hg.
    destruct (Hgroups n g Hg) as (_ & first & rest & Hrec & Hname).
    assert (first ∈ Spec.records_at grouped k n) as Hfirst.
    { unfold Spec.records_at. rewrite Hm, Hg, Hrec. by left. }
    rewrite Hat in Hfirst.
    apply list_elem_of_filter in Hfirst as [[_ Hn] _].
    by rewrite Hname, <- Hn.
  - apply Forall_forall. intros [n g] Hin. simpl.
    assert (n ∈ map fst (App.services m)) as Hn.
    { apply list_elem_of_fmap. by exists (n, g). }
    rewrite Hkeys in Hn. apply first_seen_elem_of in Hn.
    apply list_elem_of_fmap in Hn as (r & -> & Hr). by apply Hplain.
Qed.

(** *** Deleting from the page *)

Lemma group_returns_plain history secs :
  group history = Return secs → Forall Spec.plain_service history.
Proof.
  intros Hgroup.
  destruct (Forall_Exists_dec Spec.plain_service
              (λ r, ¬ Spec.plain_service r)
              (λ r, decide (Spec.plain_service r)) history)
    as [Hall | Hex]; [done|].
  apply (group_inherited LocalTZA toLocaleMonthYear) in Hex. congruence.
Qed.

Lemma filter_comm {A : Type} (P Q : A → Prop)
    `{!∀ x, Decision (P x)} `{!∀ x, Decision (Q x)} (l : list A) :
  filter P (filter Q l) = filter Q (filter P l).
Proof.
  induction l as [|x l IH]; [done|].
  rewrite !filter_cons.
  destruct (decide (P x)), (decide (Q x)); rewrite ?filter_cons;
    rewrite ?decide_True, ?decide_False by done; by rewrite IH.
Qed.

(** Keeping some of the records keeps their cards: every card of the
    smaller ledger is what is kept of one card of the larger, in the same
    month. *)
Lemma filter_keeps_cards (P : LaundryOrderResult → Prop)
    `{!∀ r, Decision (P r)} history secs :
  group history = Return secs →
  ∃ secs',
    group (filter P history) = Return secs'
    ∧ ∀ sec' card', sec' ∈ secs' → card' ∈ App.cards sec' →
        ∃ sec card,
          sec ∈ secs ∧ card ∈ App.cards sec
          ∧ App.monthKey sec = App.monthKey sec'
          ∧ App.card_records card' = filter P (App.card_records card).
Proof.
  intros Hgroup.
  pose proof (group_returns_plain _ _ Hgroup) as Hplain.
  destruct (group_plain LocalTZA toLocaleMonthYear (filter P history))
    as [secs' Hgroup'].
  { apply Forall_forall. intros r [_ Hr]%list_elem_of_filter.
    rewrite Forall_forall in Hplain. by apply Hplain. }
  exists secs'. split; [done|]. intros sec' card' Hsec' Hcard'.
  destruct (shown_card _ _ _ _ _ _ Hgroup' Hsec' Hcard')
    as (n & g & -> & (first & rest & Hrec & _) & Hheld).
  assert (first ∈ App.records g) as Hfirst by (rewrite Hrec; by left).
  rewrite Hheld in Hfirst.
  apply list_elem_of_filter in Hfirst as [[Hk Hn] [_ Hfirst]%list_elem_of_filter].
  destruct (shown_record _ _ _ _ first Hgroup Hfirst)
    as (sec & g0 & Hsec & Hcard & Hkey & _ & Hheld0).
  exists sec, (App.service_card g0). split_and!; try done.
  - by rewrite Hkey.
  - simpl. rewrite Hheld, Hheld0, Hk, Hn. apply filter_comm.
Qed.

(** X23. Deleting never moves a record: whatever is selected and whatever the
    answer to the confirmation, every card on the page afterwards is what
    is left of one card of the same month before, its records in their
    old order, and no record of that card that is still in the ledger is
    missing from it. *)
Theorem deletion_keeps_cards confirm st secs :
  group (App.history st) = Return secs →
  ∃ secs',
    group (App.history (App.deleteSelected confirm st)) = Return secs'
    ∧ ∀ sec' card', sec' ∈ secs' → card' ∈ App.cards sec' →
        ∃ sec card,
          sec ∈ secs ∧ card ∈ App.cards sec
          ∧ App.monthKey sec = App.monthKey sec'
          ∧ App.card_records card' `sublist_of` App.card_records card
          ∧ ∀ r, r ∈ App.card_records card →
                 r ∈ App.history (App.deleteSelected confirm st) →
                 r ∈ App.card_records card'.
Proof.
  intros Hgroup.
  assert (∃ (P : LaundryOrderResult → Prop) (_ : ∀ r, Decision (P r)),
            App.history (App.deleteSelected confirm st)
            = filter P (App.history st)) as (P & Hdec & ->).
  { unfold App.deleteSelected. repeat case_match; simpl.
    2: by exists (λ r, timestamp r ∉ App.selectedTimestamps st), _.
    all: exists (λ _, True), _; symmetry; by apply filter_all. }
  destruct (filter_keeps_cards P _ _ Hgroup) as (secs' & Hgroup' & Hcards).
  exists secs'. split; [done|]. intros sec' card' Hsec' Hcard'.
  destruct (Hcards sec' card' Hsec' Hcard')
    as (sec & card & Hsec & Hcard & Hkey & Hrec).
  exists sec, card. split_and!; try done.
  - rewrite Hrec. apply sublist_filter.
  - intros r Hr [HP _]%list_elem_of_filter. rewrite Hrec.
    by apply list_elem_of_filter.
Qed.

End Page.

Lemma nothing_empty_shown_witness :
  (Sample.acme_sections = [] ↔ Sample.acme_ledger = [])
  ∧ ∀ sec, sec ∈ Sample.acme_sections →
      App.cards sec ≠ []
      ∧ ∀ card, card ∈ App.cards sec → App.card_records card ≠ [].
Proof.
  apply (nothing_empty_shown Sample.utc Sample.plain).
  by vm_compute.
Defined.

Lemma react_keys_distinct_witness :
  NoDup (map More.section_key Sample.acme_sections)
  ∧ ∀ sec, sec ∈ Sample.acme_sections →
      NoDup (map (More.card_key sec) (App.cards sec)).
Proof.
  apply (react_keys_distinct Sample.utc Sample.plain Sample.acme_ledger).
  by vm_compute.
Defined.

Lemma section_label_by_first_witness :
  ∃ first rest,
    More.of_month Sample.utc (App.monthKey Session.mixed_january)
      Session.mixed = first :: rest
    ∧ App.monthLabel Session.mixed_january = Sample.plain (timestamp first).
Proof.
  apply (section_label_by_first Sample.utc Sample.plain Session.mixed
           Session.mixed_sections Session.mixed_january).
  - by vm_compute.
  - by left.
Defined.

Lemma cards_in_order_witness :
  map (λ card, toLowerCase (App.card_name card))
      (App.cards Session.mixed_january)
  = More.first_seen
      (map App.normalizedServiceKey
         (More.of_month Sample.utc (App.monthKey Session.mixed_january)
            Session.mixed))
  ∧ map App.card_name (App.cards Session.mixed_january) = ["Beta"; "Acme"].
Proof.
  split; [|reflexivity].
  apply (cards_in_order Sample.utc Sample.plain Session.mixed
           Session.mixed_sections Session.mixed_january).
  - by vm_compute.
  - by left.
  - apply Forall_forall.
    assert (More.of_month Sample.utc (App.monthKey Session.mixed_january)
              Session.mixed = Session.mixed) as -> by by vm_compute.
    repeat (apply List.Forall_cons; [by vm_compute|]).
    apply List.Forall_nil.
Defined.

Lemma deletion_keeps_cards_witness :
  let st := Sample.selecting {[Sample.jan20]} in
  ∃ secs',
    App.group Sample.utc Sample.plain
      (App.history (App.deleteSelected (λ _, true) st)) = Return secs'
    ∧ ∀ sec' card', sec' ∈ secs' → card' ∈ App.cards sec' →
        ∃ sec card,
          sec ∈ Sample.acme_sections ∧ card ∈ App.cards sec
          ∧ App.monthKey sec = App.monthKey sec'
          ∧ App.card_records card' `sublist_of` App.card_records card
          ∧ ∀ r, r ∈ App.card_records card →
                 r ∈ App.history (App.deleteSelected (λ _, true) st) →
                 r ∈ App.card_records card'.
Proof.
  apply (deletion_keeps_cards Sample.utc Sample.plain (λ _, true)
           (Sample.selecting {[Sample.jan20]}) Sample.acme_sections).
  by vm_compute.
Defined.


(** ** Reading the export back *)

Section Reading.

Variable toLocaleDateString : Z → string.
Variable toLocaleTimeString : Z → string.

Local Abbreviation read := Reader.read.
Local Abbreviation plain := Reader.plain.
Local Abbreviation prepend := Reader.prepend.
Local Abbreviation written := Reader.written.
Local Abbreviation values :=
  (App.values toLocaleDateString toLocaleTimeString).
Local Abbreviation fields :=
  (Reader.fields toLocaleDateString toLocaleTimeString).
Local Abbreviation exportToCSV :=
  (App.exportToCSV toLocaleDateString toLocaleTimeString).

Implicit Types (s rest text field : string) (c : ascii)
  (rows : list (list string)).

(** *** Plain texts *)

Lemma plain_app s1 s2 : plain (s1 +:+ s2) = plain s1 && plain s2.
Proof.
  induction s1 as [|c s1 IH]; [done|].
  rewrite app_String. simpl. rewrite IH. by rewrite !andb_assoc.
Qed.

Lemma plain_uint (d : Decimal.uint) :
  plain (NilEmpty.string_of_uint d) = true.
Proof. induction d; simpl; done. Qed.

Lemma plain_Z_toString (z : Z) : plain (Z_toString z) = true.
Proof.
  unfold Z_toString, NilZero.string_of_int, NilZero.string_of_uint.
  destruct (Z.to_int z) as [d|d]; destruct d; simpl; by rewrite ?plain_uint.
Qed.

Lemma plain_zeros (n : nat) : plain (zeros n) = true.
Proof. induction n; simpl; done. Qed.

Lemma plain_substring (n m : nat) s :
  plain s = true → plain (String.substring n m s) = true.
Proof.
  revert n m. induction s as [|c s IH]; intros n m Hs.
  - by destruct n, m.
  - simpl in Hs. apply andb_prop in Hs as [Hc Hs].
    destruct n as [|n]; simpl; [|by apply IH].
    destruct m as [|m]; [done|]. simpl. rewrite Hc. by apply IH.
Qed.

Lemma plain_positive_toString (m : positive) (e : Z) :
  plain (positive_toString m e) = true.
Proof.
  unfold positive_toString. destruct (fraction m e) as [num den].
  destruct (shortest_digits _ _ _ _ _ _) as [[s k] n].
  pose proof (plain_Z_toString s) as Hds.
  repeat case_match; rewrite ?plain_app, ?plain_zeros, ?plain_Z_toString,
    ?plain_substring by done; done.
Qed.

Lemma plain_Number_toString (x : number) : plain (Number_toString x) = true.
Proof.
  destruct x as [s|[]| |[] m e]; try done.
  all: unfold Number_toString;
    by rewrite ?plain_app, ?plain_positive_toString.
Qed.

Lemma plain_digit_char (d : Z) :
  0 ≤ d < 10 → plain (String (digit_char d) "") = true.
Proof.
  intros Hd.
  assert (d = 0 ∨ d = 1 ∨ d = 2 ∨ d = 3 ∨ d = 4 ∨ d = 5 ∨ d = 6 ∨ d = 7
          ∨ d = 8 ∨ d = 9) as Hcases by lia.
  by repeat destruct Hcases as [-> | Hcases]; subst.
Qed.

Lemma plain_toFixed2 (x : number) : plain (toFixed2 x) = true.
Proof.
  destruct x as [s|[]| |s m e]; try done.
  unfold toFixed2. destruct (fraction m e) as [num den].
  case_match; [apply plain_Number_toString|].
  set (n := (200 * num + den) / (2 * den)).
  change (String (digit_char (n mod 100 / 10))
            (String (digit_char (n mod 10)) ""))
    with (String (digit_char (n mod 100 / 10)) ""
          +:+ String (digit_char (n mod 10)) "").
  rewrite !plain_app, plain_Z_toString, !plain_digit_char.
  - by destruct s.
  - apply Z.mod_pos_bound. lia.
  - pose proof (Z.mod_pos_bound n 100). split;
      [apply Z.div_pos | apply Z.div_lt_upper_bound]; lia.
Qed.

(** *** Reading fields, rows and files *)

Lemma comma_not_dquote : Ascii.eqb Reader.comma dquote = false.
Proof. done. Qed.

Lemma read_separated rest :
  Reader.separated rest →
  read rest Reader.Bare = read rest Reader.Start
  ∧ read rest Reader.Closing = read rest Reader.Start.
Proof. destruct rest as [|c rest]; [done|]. by intros [-> | ->]. Qed.

Lemma prepend_empty (o : option (list (list string))) :
  prepend "" <$> o = o.
Proof. destruct o as [[|[|field fields] rows]|]; done. Qed.

Lemma push_prepend c field (o : option (list (list string))) :
  Reader.push c <$> (prepend field <$> o) = prepend (String c field) <$> o.
Proof. destruct o as [[|[|field' fields] rows]|]; done. Qed.

Lemma read_plain field rest :
  plain field = true → Reader.separated rest →
  read (field +:+ rest) Reader.Start = prepend field <$> read rest Reader.Start
  ∧ read (field +:+ rest) Reader.Bare
    = prepend field <$> read rest Reader.Start.
Proof.
  intros Hplain Hrest. induction field as [|c field IH].
  - rewrite app_empty, prepend_empty.
    split; [done | by apply read_separated].
  - simpl in Hplain.
    apply andb_prop in Hplain as [[[Hc Hn]%andb_prop Hq]%andb_prop Hplain].
    apply negb_true_iff in Hc, Hn, Hq.
    destruct (IH Hplain) as [_ IHbare].
    rewrite app_String. simpl. rewrite Hc, Hn, Hq, IHbare.
    by rewrite push_prepend.
Qed.

Lemma read_quoted field rest :
  Reader.separated rest →
  read (App.double_quotes field +:+ String dquote rest) Reader.Quoted
  = prepend field <$> read rest Reader.Start.
Proof.
  intros Hrest. unfold App.double_quotes.
  induction field as [|c field IH].
  - simpl. rewrite prepend_empty. by apply read_separated.
  - simpl. destruct (Ascii.eqb c dquote) eqn:Hc.
    + apply Ascii.eqb_eq in Hc as ->.
      rewrite !app_String, app_empty. simpl. by rewrite IH, push_prepend.
    + rewrite app_String. simpl. by rewrite Hc, IH, push_prepend.
Qed.

Lemma read_written text field rest :
  written text field → Reader.separated rest →
  read (text +:+ rest) Reader.Start = prepend field <$> read rest Reader.Start.
Proof.
  intros [[Hplain ->] | ->] Hrest.
  - by apply read_plain.
  - unfold App.quoted.
    rewrite !app_String, app_assoc_string, app_String, app_empty.
    simpl. by apply read_quoted.
Qed.

Lemma read_ended rest :
  Reader.ended rest →
  read rest Reader.Start = cons [""] <$> Reader.rows_after rest.
Proof. destruct rest as [|c rest]; [done|]. by intros ->. Qed.

Lemma ended_separated rest : Reader.ended rest → Reader.separated rest.
Proof. destruct rest as [|c rest]; [done|]. intros ->. by right. Qed.

(** A row of written fields, read up to where it ends. *)
Lemma read_row texts row rest :
  Forall2 written texts row → texts ≠ [] → Reader.ended rest →
  read (join "," texts +:+ rest) Reader.Start
  = cons row <$> Reader.rows_after rest.
Proof.
  intros Hall Hne Hrest.
  induction Hall as [|text field texts row Hfield Hall IH]; [done|].
  destruct Hall as [|text' field' texts row Hfield' Hall].
  - simpl. rewrite (read_written _ _ _ Hfield) by by apply ended_separated.
    rewrite (read_ended _ Hrest).
    destruct (Reader.rows_after rest); simpl; [|done].
    by rewrite app_empty_r.
  - change (join "," (text :: text' :: texts))
      with (text +:+ "," +:+ join "," (text' :: texts)).
    rewrite !app_assoc_string, app_String, app_empty.
    rewrite (read_written _ _ _ Hfield) by by left.
    change (read (String "," ?s) Reader.Start)
      with (Reader.next_field <$> read s Reader.Start).
    rewrite IH by done.
    destruct (Reader.rows_after rest); simpl; [|done].
    by rewrite app_empty_r.
Qed.

(** A file of rows of written fields. *)
Lemma read_rows lines rows :
  Forall2 (λ line row, ∃ texts,
             line = join "," texts ∧ texts ≠ []
             ∧ Forall2 written texts row) lines rows →
  lines ≠ [] →
  read (join (String newline "") lines) Reader.Start = Some rows.
Proof.
  intros Hall Hne.
  induction Hall as [|line row lines rows (texts & -> & Hne' & Hrow) Hall IH];
    [done|].
  destruct Hall as [|line' row' lines rows Hline' Hall].
  - simpl. rewrite <- (app_empty_r (join "," texts)).
    by rewrite (read_row _ _ _ Hrow).
  - change (join (String newline "") (join "," texts :: line' :: lines))
      with (join "," texts +:+ String newline ""
            +:+ join (String newline "") (line' :: lines)).
    rewrite app_String, app_empty.
    rewrite (read_row _ _ _ Hrow) by done.
    change (Reader.rows_after (String newline ?r))
      with (read r Reader.Start).
    by rewrite IH.
Qed.

Lemma values_written row :
  plain (toLocaleDateString (timestamp row)) = true →
  plain (toLocaleTimeString (timestamp row)) = true →
  (∀ s, laundry_weight_kg row = WString s → plain s = true) →
  Forall2 written (values row) (fields row).
Proof.
  intros Hdate Htime Hweight.
  unfold App.values, Reader.fields, PriceText.exported.
  apply List.Forall2_cons; [by left|].
  apply List.Forall2_cons; [by left|].
  apply List.Forall2_cons; [by right|].
  apply List.Forall2_cons; [by right|].
  apply List.Forall2_cons; [by right|].
  apply List.Forall2_cons.
  { right. unfold App.quoted_address, App.quoted.
    by rewrite flatten_double_quotes. }
  apply List.Forall2_cons.
  { left. split; [|done].
    destruct (laundry_weight_kg row) as [x|s] eqn:Hw; simpl;
      [apply plain_Number_toString | by apply Hweight]. }
  apply List.Forall2_cons; [|apply List.Forall2_nil].
  left. split; [apply plain_toFixed2 | done].
Qed.

(** X24. The export reads back: when the locale writes dates and times without
    comma, double quote or newline, and so are the weights that are texts,
    a reader of CSV finds in the exported file the header row and then,
    for each record in the ledger's order, its eight fields with the
    service name, order number and customer name exactly as stored and the
    address with its newlines as spaces. *)
Theorem export_reads_back (history : ledger) :
  history ≠ [] →
  (∀ row, row ∈ history →
     plain (toLocaleDateString (timestamp row)) = true
     ∧ plain (toLocaleTimeString (timestamp row)) = true
     ∧ ∀ s, laundry_weight_kg row = WString s → plain s = true) →
  ∃ text,
    exportToCSV history = Some text
    ∧ read text Reader.Start = Some (App.headers :: map fields history).
Proof.
  intros Hne Hplain. unfold App.exportToCSV.
  destruct history as [|first history]; [done|].
  change (Nat.eqb (length (first :: history)) 0) with false.
  eexists. split; [done|].
  apply read_rows; [|done]. unfold App.csvRows.
  apply List.Forall2_cons.
  - exists App.headers. split_and!; try done.
    unfold App.headers.
    repeat (apply List.Forall2_cons; [by left|]). apply List.Forall2_nil.
  - change (map ?f ?l) with (f <$> l). apply Forall2_fmap.
    apply Forall_Forall2_diag, Forall_forall. intros row Hrow.
    destruct (Hplain row Hrow) as (Hdate & Htime & Hweight).
    exists (values row). split_and!; try done.
    by apply values_written.
Qed.

End Reading.

Lemma export_reads_back_witness :
  ∃ text,
    App.exportToCSV Sample.plain Sample.plain Sample.acme_ledger = Some text
    ∧ Reader.read text Reader.Start
      = Some (App.headers
              :: map (Reader.fields Sample.plain Sample.plain)
                     Sample.acme_ledger).
Proof.
  apply (export_reads_back Sample.plain Sample.plain Sample.acme_ledger).
  - discriminate.
  - apply Forall_forall.
    repeat (apply List.Forall_cons;
            [split_and!; [by vm_compute | by vm_compute | by intros s [=]]|]).
    apply List.Forall_nil.
Defined.
